(** * PF / BF brute-force search: factorial cache, classifiers and search loops

    A shallow embedding of [pf_bf_search.py].  Python integers are modelled
    as [Z], the module-level list [facts] as an explicit state threaded
    through a small state-and-failure monad, the two [while] loops as a
    fuelled loop (table extension, which only terminates on sensible tables)
    and a well-founded recursion (binary search, which always terminates). *)

From Equations Require Import Equations.
From Stdlib Require Import String ZArith Arith Bool Lia List Sorted.
Import ListNotations.
Local Open Scope Z_scope.

(** ** Mathematical factorial, used only to state properties *)

Fixpoint fact (k : nat) : Z :=
  match k with
  | O => 1
  | S k' => Z.of_nat k * fact k'
  end.

(** ** Python list primitives *)

(** [l[i]] with Python's negative-index wrap-around; [None] is [IndexError]. *)
Definition py_get (l : list Z) (i : Z) : option Z :=
  if i <? 0 then
    if Z.of_nat (length l) + i <? 0 then None
    else nth_error l (Z.to_nat (Z.of_nat (length l) + i))
  else nth_error l (Z.to_nat i).

(** [range(lo, hi)] *)
Definition py_range (lo hi : Z) : list Z :=
  map (fun i => lo + Z.of_nat i) (seq 0 (Z.to_nat (hi - lo))).

(** Pascal's triangle: the value [math.comb] computes on naturals. *)
Fixpoint binom (n k : nat) : Z :=
  match n, k with
  | _, O => 1
  | O, S _ => 0
  | S n', S k' => binom n' k' + binom n' k
  end.

(** [math.comb(n, k)]; [None] is the [ValueError] raised on a negative
    argument. *)
Definition comb (n k : Z) : option Z :=
  if (n <? 0) || (k <? 0) then None
  else Some (binom (Z.to_nat n) (Z.to_nat k)).

(** ** The state monad over the global factorial table *)

(** The state is the module-level list [facts]; [None] stands for a run that
    raises or exhausts its fuel. *)
Definition table := list Z.

Definition M (A : Type) : Type := table -> option (A * table).

Definition ret {A} (a : A) : M A := fun t => Some (a, t).

Definition bind {A B} (m : M A) (f : A -> M B) : M B :=
  fun t => match m t with
           | Some (a, t') => f a t'
           | None => None
           end.

Notation "x <- m ;; k" := (bind m (fun x => k))
  (at level 61, m at next level, right associativity).
Notation "' pat <- m ;; k" := (bind m (fun x => match x with pat => k end))
  (at level 61, pat pattern, m at next level, right associativity).

(** Monadic left fold: the body of a [for] loop run over the loop's range. *)
Fixpoint for_each {A S} (xs : list A) (body : A -> S -> M S) (s : S) : M S :=
  match xs with
  | [] => ret s
  | x :: xs' => s' <- body x s ;; for_each xs' body s'
  end.

Definition lift_opt {A} (o : option A) : M A :=
  fun t => match o with Some a => Some (a, t) | None => None end.

(** [facts: List[int] = [1, 1]] *)
Definition facts0 : table := [1; 1].

(** ** Records *)

Record PFRecord := mkPF { pf_n : Z; pf_r : Z; pf_c : Z; pf_cls : string }.
Record BFRecord := mkBF { bf_n : Z; bf_r : Z; bf_c : Z; bf_cls : string }.

(** ** Binary search over the table *)

(** The [while lo <= hi] loop of [factorial_index_of]. *)
Equations? bsearch (facts : table) (x lo hi : Z) : option (bool * option Z)
  by wf (Z.to_nat (hi - lo + 1)) lt :=
  bsearch facts x lo hi with Z_le_gt_dec lo hi => {
    | right _ := Some (false, None);
    | left _ with py_get facts ((lo + hi) / 2) => {
      | None := None;
      | Some v with Z.eq_dec v x => {
        | left _ := Some (true, Some ((lo + hi) / 2));
        | right _ with Z_lt_ge_dec v x => {
          | left _ := bsearch facts x ((lo + hi) / 2 + 1) hi;
          | right _ := bsearch facts x lo ((lo + hi) / 2 - 1) } } } }.
Proof.
  all: assert (lo <= (lo + hi) / 2 <= hi)
    by (split; [apply Z.div_le_lower_bound | apply Z.div_le_upper_bound]; lia);
    lia.
Qed.

Section Fuel.

(** Bound on the number of entries one extension call may append. *)
Variable fuel : nat.

(** The [while facts[-1] < x] loop. *)
Fixpoint extend_loop (f : nat) (x : Z) (facts : table) : option table :=
  match py_get facts (-1) with
  | None => None
  | Some v =>
      if v <? x then
        match f with
        | O => None
        | S f' => extend_loop f' x (facts ++ [v * Z.of_nat (length facts)])
        end
      else Some facts
  end.

Definition extend_factorials_until_ge (x : Z) : M unit :=
  fun facts => option_map (fun t => (tt, t)) (extend_loop fuel x facts).

Definition factorial_index_of (x : Z) : M (bool * option Z) :=
  if x <? 1 then ret (false, None)
  else
    _ <- extend_factorials_until_ge x ;;
    fun facts =>
      option_map (fun res => (res, facts))
                 (bsearch facts x 0 (Z.of_nat (length facts) - 1)).

Definition is_factorial (x : Z) : M (bool * option Z) := factorial_index_of x.

Definition n_is_factorial (n : Z) : M (bool * option Z) := factorial_index_of n.

(** ** Classification helpers *)

Definition is_pf_trivial (n r c : Z) : M bool :=
  if (r =? 0) || (r =? n - 1) || (r =? n) then ret true
  else if r =? 1 then
    '(ok, _) <- n_is_factorial n ;;
    if ok then ret true else ret false
  else ret false.

Definition is_pf_F3 (n r c : Z) : M bool :=
  '(ok, t) <- n_is_factorial n ;;
  match ok, t with
  | true, Some t => if t <? 3 then ret false
                    else ret ((r =? n - t) && (c =? n - 1))
  | _, _ => ret false
  end.

Definition is_bf_trivial (n r c : Z) : M bool :=
  if (r =? 0) || (r =? n) then ret true
  else if (r =? 1) || (r =? n - 1) then
    '(ok, _) <- n_is_factorial n ;;
    if ok then ret true else ret false
  else ret false.

(** ** Search functions *)

(** One iteration of the inner [for r] loop of [search_pf]; the loop-carried
    state is the running product and the output list. *)
Definition pf_body (include_trivial include_pf_f3 : bool) (n r : Z)
    (s : Z * list PFRecord) : M (Z * list PFRecord) :=
  let '(prod, out) := s in
  let prod := if 0 <? r then prod * (n - (r - 1)) else prod in
  '(ok, c) <- is_factorial prod ;;
  match ok, c with
  | true, Some c =>
      triv <- is_pf_trivial n r c ;;
      if triv then
        ret (prod, if include_trivial
                   then out ++ [mkPF n r c "trivial"] else out)
      else
        f3 <- is_pf_F3 n r c ;;
        if f3 then
          ret (prod, if include_pf_f3
                     then out ++ [mkPF n r c "PF_F3"] else out)
        else ret (prod, out ++ [mkPF n r c "exceptional"])
  | _, _ => ret (prod, out)
  end.

Definition search_pf (n_max : Z) (include_trivial include_pf_f3 : bool)
    : M (list PFRecord) :=
  for_each (py_range 0 (n_max + 1))
    (fun n out =>
       '(_, out') <- for_each (py_range 0 (n + 1))
                       (pf_body include_trivial include_pf_f3 n) (1, out) ;;
       ret out')
    [].

(** One iteration of the inner [for r] loop of [search_bf]. *)
Definition bf_body (include_trivial : bool) (n r : Z)
    (out : list BFRecord) : M (list BFRecord) :=
  val <- lift_opt (comb n r) ;;
  '(ok, c) <- is_factorial val ;;
  match ok, c with
  | true, Some c =>
      triv <- is_bf_trivial n r c ;;
      if triv then
        ret (if include_trivial then out ++ [mkBF n r c "trivial"] else out)
      else ret (out ++ [mkBF n r c "exceptional"])
  | _, _ => ret out
  end.

Definition search_bf (n_max : Z) (include_trivial : bool)
    : M (list BFRecord) :=
  for_each (py_range 0 (n_max + 1))
    (fun n out => for_each (py_range 0 (n + 1)) (bf_body include_trivial n) out)
    [].

End Fuel.

(** * Vocabulary of the specification *)

(** [x] is the factorial of some natural number. *)
Definition is_fact (x : Z) : Prop := exists k, fact k = x.

(** The table holding exactly [0!, 1!, ..., (L-1)!]. *)
Definition fact_table (L : nat) : table := map fact (seq 0 L).

(** The tables the program can hold: a factorial prefix with at least the two
    seed entries. *)
Definition wf_table (T : table) : Prop :=
  exists L, (2 <= L)%nat /\ T = fact_table L.

Definition nondecreasing (T : table) : Prop :=
  forall i j a b, (i <= j)%nat ->
    nth_error T i = Some a -> nth_error T j = Some b -> a <= b.

(** What a lookup of [x] may answer: an index whose factorial is [x], or
    not-found when [x] is no factorial at all. *)
Definition fio_res (x : Z) (res : bool * option Z) : Prop :=
  (exists k : nat, res = (true, Some (Z.of_nat k)) /\ fact k = x)
  \/ (res = (false, None) /\ ~ is_fact x).

Definition pf_trivial_prop (n r : Z) : Prop :=
  r = 0 \/ r = n - 1 \/ r = n \/ (r = 1 /\ is_fact n).

Definition pf_F3_prop (n r c : Z) : Prop :=
  exists t : nat, (3 <= t)%nat /\ fact t = n /\ r = n - Z.of_nat t /\ c = n - 1.

Definition bf_trivial_prop (n r : Z) : Prop :=
  r = 0 \/ r = n \/ ((r = 1 \/ r = n - 1) /\ is_fact n).

(** The tag the priority order trivial, PF_F3, exceptional assigns. *)
Definition pf_class_of (n r c : Z) (cls : string) : Prop :=
  (pf_trivial_prop n r /\ cls = "trivial"%string)
  \/ (~ pf_trivial_prop n r /\ pf_F3_prop n r c /\ cls = "PF_F3"%string)
  \/ (~ pf_trivial_prop n r /\ ~ pf_F3_prop n r c /\ cls = "exceptional"%string).

Definition bf_class_of (n r : Z) (cls : string) : Prop :=
  (bf_trivial_prop n r /\ cls = "trivial"%string)
  \/ (~ bf_trivial_prop n r /\ cls = "exceptional"%string).

(** Whether the flags let a record of class [cls] through. *)
Definition pf_keep (include_trivial include_pf_f3 : bool) (cls : string) : bool :=
  if String.eqb cls "trivial"%string then include_trivial
  else if String.eqb cls "PF_F3"%string then include_pf_f3
  else true.

Definition bf_keep (include_trivial : bool) (cls : string) : bool :=
  if String.eqb cls "trivial"%string then include_trivial else true.

(** The records iteration [(n, r)] of [search_pf] appends when the running
    product is [v]. *)
Definition pf_emits (it f3 : bool) (n r v : Z) (new : list PFRecord) : Prop :=
  (~ is_fact v /\ new = [])
  \/ (exists (c : nat) cls,
        fact c = v /\ pf_class_of n r (Z.of_nat c) cls
        /\ new = if pf_keep it f3 cls then [mkPF n r (Z.of_nat c) cls] else []).

Definition bf_emits (it : bool) (n r v : Z) (new : list BFRecord) : Prop :=
  (~ is_fact v /\ new = [])
  \/ (exists (c : nat) cls,
        fact c = v /\ bf_class_of n r cls
        /\ new = if bf_keep it cls then [mkBF n r (Z.of_nat c) cls] else []).

(** [chunks P xs out]: [out] is the concatenation, in order, of one chunk per
    element of [xs], each chunk related to its element by [P]. *)
Inductive chunks {A R : Type} (P : A -> list R -> Prop) : list A -> list R -> Prop :=
| chunks_nil : chunks P [] []
| chunks_cons x xs new rest :
    P x new -> chunks P xs rest -> chunks P (x :: xs) (new ++ rest).

(** The falling product [n (n-1) ... (n-r+1)] that [search_pf] builds up. *)
Fixpoint falling (n : Z) (r : nat) : Z :=
  match r with
  | O => 1
  | S r' => falling n r' * (n - Z.of_nat r')
  end.

(** What the inner loop for a given [n] appends. *)
Definition pf_row (it f3 : bool) (n : Z) (news : list PFRecord) : Prop :=
  chunks (fun r new => pf_emits it f3 n r (falling n (Z.to_nat r)) new)
         (py_range 0 (n + 1)) news.

(** What [search_pf n_max] returns. *)
Definition pf_out (it f3 : bool) (n_max : Z) (out : list PFRecord) : Prop :=
  chunks (pf_row it f3) (py_range 0 (n_max + 1)) out.

Definition bf_row (it : bool) (n : Z) (news : list BFRecord) : Prop :=
  chunks (fun r new => bf_emits it n r (binom (Z.to_nat n) (Z.to_nat r)) new)
         (py_range 0 (n + 1)) news.

Definition bf_out (it : bool) (n_max : Z) (out : list BFRecord) : Prop :=
  chunks (bf_row it) (py_range 0 (n_max + 1)) out.

(** A sequence of extension calls, as a caller would issue them. *)
Definition extend_calls (fuel : nat) (xs : list Z) : M unit :=
  for_each xs (fun x _ => extend_factorials_until_ge fuel x) tt.

(** The tag chosen by the priority order of [search_pf]: trivial first, then
    PF_F3, then exceptional. *)
Definition pf_tag (triv f3 : bool) : string :=
  if triv then "trivial" else if f3 then "PF_F3" else "exceptional".

(** The tag chosen by the priority order of [search_bf]. *)
Definition bf_tag (triv : bool) : string :=
  if triv then "trivial" else "exceptional".

(** The record's tag is the one the classifiers assign to its triple, on
    whatever table they are run. *)
Definition pf_tagged (fuel : nat) (rec : PFRecord) : Prop :=
  forall T, wf_table T ->
    exists bt bf Ta Tb,
      is_pf_trivial fuel (pf_n rec) (pf_r rec) (pf_c rec) T = Some (bt, Ta)
      /\ is_pf_F3 fuel (pf_n rec) (pf_r rec) (pf_c rec) T = Some (bf, Tb)
      /\ pf_cls rec = pf_tag bt bf.

Definition bf_tagged (fuel : nat) (rec : BFRecord) : Prop :=
  forall T, wf_table T ->
    exists bt Ta,
      is_bf_trivial fuel (bf_n rec) (bf_r rec) (bf_c rec) T = Some (bt, Ta)
      /\ bf_cls rec = bf_tag bt.

(** Two records agree up to the tie between the indices 0 and 1. *)
Definition pf_agree (a b : PFRecord) : Prop :=
  pf_n a = pf_n b /\ pf_r a = pf_r b /\ pf_cls a = pf_cls b
  /\ (pf_c a = pf_c b \/ (0 <= pf_c a <= 1 /\ 0 <= pf_c b <= 1)).

Definition bf_agree (a b : BFRecord) : Prop :=
  bf_n a = bf_n b /\ bf_r a = bf_r b /\ bf_cls a = bf_cls b
  /\ (bf_c a = bf_c b \/ (0 <= bf_c a <= 1 /\ 0 <= bf_c b <= 1)).

(** Strict lexicographic order on (n, r). *)
Definition pf_lex (a b : PFRecord) : Prop :=
  pf_n a < pf_n b \/ (pf_n a = pf_n b /\ pf_r a < pf_r b).

Definition bf_lex (a b : BFRecord) : Prop :=
  bf_n a < bf_n b \/ (bf_n a = bf_n b /\ bf_r a < bf_r b).

Definition pf_not_trivial (rec : PFRecord) : bool :=
  negb (String.eqb (pf_cls rec) "trivial").

Definition bf_not_trivial (rec : BFRecord) : bool :=
  negb (String.eqb (bf_cls rec) "trivial").

(** A computation only ever appends to the table it is given. *)
Definition appends {A} (m : M A) : Prop :=
  forall T a T', m T = Some (a, T') -> exists suf, T' = T ++ suf.

Definition pf_not_F3 (rec : PFRecord) : bool :=
  negb (String.eqb (pf_cls rec) "PF_F3").

(** [--mode] of the command line. *)
Inductive mode := ModePF | ModeBF | ModeBoth.

(** The searches [main] runs for parsed arguments [--mode], [--nmax],
    [--no-trivial] and [--no-pf-f3], in its order (PF first, then BF, on the
    one shared table), returning the rows it hands to [write_pf_csv] and
    [write_bf_csv] ([None] when a mode is not selected).  Argument parsing,
    directory creation, the file writes and the prints are not modelled. *)
Definition main_searches (fuel : nat) (m : mode) (nmax : Z)
    (no_trivial no_pf_f3 : bool)
    : M (option (list PFRecord) * option (list BFRecord)) :=
  let include_trivial := negb no_trivial in
  let include_pf_f3 := negb no_pf_f3 in
  pf_rows <- match m with
             | ModePF | ModeBoth =>
                 rows <- search_pf fuel nmax include_trivial include_pf_f3 ;;
                 ret (Some rows)
             | ModeBF => ret None
             end ;;
  bf_rows <- match m with
             | ModeBF | ModeBoth =>
                 rows <- search_bf fuel nmax include_trivial ;;
                 ret (Some rows)
             | ModePF => ret None
             end ;;
  ret (pf_rows, bf_rows).


(** * Properties *)

(** ** Concrete runs *)

Example lookup_120 :
  factorial_index_of 5 120 facts0 = Some ((true, Some 5), [1; 1; 2; 6; 24; 120]).
Proof. reflexivity. Qed.

Example lookup_121 :
  factorial_index_of 6 121 facts0
  = Some ((false, None), [1; 1; 2; 6; 24; 120; 720]).
Proof. reflexivity. Qed.

Example lookup_out_of_fuel : factorial_index_of 2 121 facts0 = None.
Proof. reflexivity. Qed.

Example search_pf_6_no_trivial :
  search_pf 6 6 false true facts0
  = Some ([mkPF 6 3 5 "PF_F3"], [1; 1; 2; 6; 24; 120; 720]).
Proof. reflexivity. Qed.

Example search_bf_4_no_trivial :
  search_bf 4 4 false facts0
  = Some ([mkBF 4 2 3 "exceptional"], [1; 1; 2; 6]).
Proof. reflexivity. Qed.

Example search_negative_bound : search_pf 0 (-1) true true facts0 = Some ([], facts0).
Proof. reflexivity. Qed.

(** ** Facts about the factorial *)

Lemma fact_S k : fact (S k) = Z.of_nat (S k) * fact k.
Proof. reflexivity. Qed.

Arguments fact : simpl never.

Lemma fact_pos k : 1 <= fact k.
Proof.
  induction k as [|k IH]; [reflexivity|].
  rewrite fact_S. nia.
Qed.

Lemma fact_step_le k : fact k <= fact (S k).
Proof. rewrite fact_S. pose proof (fact_pos k). nia. Qed.

Lemma fact_step_lt k : (1 <= k)%nat -> fact k < fact (S k).
Proof. intros Hk. rewrite fact_S. pose proof (fact_pos k). nia. Qed.

Lemma fact_mono k j : (k <= j)%nat -> fact k <= fact j.
Proof.
  induction 1 as [|j _ IH]; [lia|].
  pose proof (fact_step_le j). lia.
Qed.

Lemma fact_strict k j : (1 <= k)%nat -> (k < j)%nat -> fact k < fact j.
Proof.
  intros Hk Hlt. induction Hlt as [|j Hj IH].
  - now apply fact_step_lt.
  - pose proof (fact_step_le j). lia.
Qed.

Lemma fact_ge k : Z.of_nat k <= fact k.
Proof.
  induction k as [|k IH]; [cbv; discriminate|].
  rewrite fact_S. pose proof (fact_pos k). nia.
Qed.

Lemma fact_inj a b : fact a = fact b -> a = b \/ (a <= 1 /\ b <= 1)%nat.
Proof.
  intros E.
  destruct (Nat.lt_trichotomy a b) as [H|[H|H]]; [|now left|].
  - destruct (Nat.le_gt_cases a 0) as [Ha|Ha].
    + assert (a = 0%nat) by lia; subst a.
      destruct (Nat.le_gt_cases b 1) as [Hb|Hb]; [right; lia|].
      pose proof (fact_strict 1 b ltac:(lia) Hb) as S1.
      change (fact 1) with 1 in S1. change (fact 0) with 1 in E. lia.
    + pose proof (fact_strict a b Ha H). lia.
  - destruct (Nat.le_gt_cases b 0) as [Hb|Hb].
    + assert (b = 0%nat) by lia; subst b.
      destruct (Nat.le_gt_cases a 1) as [Ha|Ha]; [right; lia|].
      pose proof (fact_strict 1 a ltac:(lia) Ha) as S1.
      change (fact 1) with 1 in S1. change (fact 0) with 1 in E. lia.
    + pose proof (fact_strict b a Hb H). lia.
Qed.

(** ** Well-formed tables *)

Lemma fact_table_length L : length (fact_table L) = L.
Proof. unfold fact_table. now rewrite length_map, length_seq. Qed.

Lemma fact_table_nth L k : (k < L)%nat -> nth_error (fact_table L) k = Some (fact k).
Proof.
  intros Hk. unfold fact_table.
  rewrite nth_error_map, nth_error_seq.
  destruct (Nat.ltb_spec k L); [reflexivity|lia].
Qed.

Lemma fact_table_S L : fact_table (S L) = fact_table L ++ [fact L].
Proof. unfold fact_table. now rewrite seq_S, map_app. Qed.

Lemma fact_table_get L k :
  (k < L)%nat -> py_get (fact_table L) (Z.of_nat k) = Some (fact k).
Proof.
  intros Hk. unfold py_get.
  destruct (Z.ltb_spec (Z.of_nat k) 0); [lia|].
  rewrite Nat2Z.id. now apply fact_table_nth.
Qed.

Lemma fact_table_last L :
  py_get (fact_table (S L)) (-1) = Some (fact L).
Proof.
  unfold py_get. rewrite fact_table_length.
  change (-1 <? 0) with true. cbv iota.
  destruct (Z.ltb_spec (Z.of_nat (S L) + -1) 0); [lia|].
  replace (Z.to_nat (Z.of_nat (S L) + -1)) with L by lia.
  apply fact_table_nth. lia.
Qed.

Lemma facts0_wf : wf_table facts0.
Proof. exists 2%nat. split; [lia|reflexivity]. Qed.

Lemma wf_table_fact_table L : (2 <= L)%nat -> wf_table (fact_table L).
Proof. intros H. now exists L. Qed.

(** ** The extension loop on well-formed tables *)

Lemma extend_loop_eq f x T :
  extend_loop f x T =
  match py_get T (-1) with
  | None => None
  | Some v =>
      if v <? x then
        match f with
        | O => None
        | S f' => extend_loop f' x (T ++ [v * Z.of_nat (length T)])
        end
      else Some T
  end.
Proof. destruct f; reflexivity. Qed.

Lemma extend_loop_spec f x L :
  x <= fact (L + f) ->
  exists L', extend_loop f x (fact_table (S L)) = Some (fact_table (S L'))
    /\ (L <= L')%nat /\ x <= fact L'
    /\ (L' = L \/ (L < L')%nat /\ fact (L' - 1) < x).
Proof.
  revert L. induction f as [|f IH]; intros L Hx.
  - rewrite Nat.add_0_r in Hx. exists L.
    rewrite extend_loop_eq, fact_table_last.
    destruct (Z.ltb_spec (fact L) x); [lia|]. auto with zarith.
  - rewrite extend_loop_eq, fact_table_last.
    destruct (Z.ltb_spec (fact L) x) as [Hlt|Hge].
    + destruct (IH (S L)) as (L' & E & Hle & Hb & Hc).
      { now replace (S L + f)%nat with (L + S f)%nat by lia. }
      exists L'.
      rewrite fact_table_length.
      replace (fact L * Z.of_nat (S L)) with (fact (S L))
        by (rewrite fact_S; lia).
      rewrite <- fact_table_S, E.
      repeat split; try lia.
      right. split; [lia|].
      destruct Hc as [->|[Hc1 Hc2]]; [|exact Hc2].
      now replace (S L - 1)%nat with L by lia.
    + exists L. auto with zarith.
Qed.

(** ** Binary search on a non-decreasing table *)

Lemma py_get_nonneg T i : 0 <= i -> py_get T i = nth_error T (Z.to_nat i).
Proof. intros H. unfold py_get. destruct (Z.ltb_spec i 0); [lia|reflexivity]. Qed.

Lemma mid_bounds lo hi : lo <= hi -> lo <= (lo + hi) / 2 <= hi.
Proof.
  intros H. split; [apply Z.div_le_lower_bound | apply Z.div_le_upper_bound]; lia.
Qed.

(** The search either returns an index in range holding [x], or reports that
    no index in range holds [x]; it never fails. *)
Lemma bsearch_spec T x lo hi :
  nondecreasing T -> 0 <= lo -> hi < Z.of_nat (length T) ->
  (exists m, bsearch T x lo hi = Some (true, Some m)
             /\ lo <= m <= hi /\ py_get T m = Some x)
  \/ (bsearch T x lo hi = Some (false, None)
      /\ forall j, lo <= j <= hi -> py_get T j <> Some x).
Proof.
  intros Hnd. funelim (bsearch T x lo hi); intros Hlo Hhi;
    try match goal with Hle : lo <= hi |- _ =>
          pose proof (mid_bounds lo hi Hle) as Hm end.
  - right. split; [reflexivity|]. intros j Hj. lia.
  - exfalso.
    match goal with Hg : py_get _ _ = None |- _ =>
      rewrite py_get_nonneg in Hg by lia; apply nth_error_None in Hg end.
    lia.
  - left. exists ((lo + hi) / 2). subst. auto.
  - match goal with Hg : py_get _ _ = Some ?v, Hv : ?v < x,
                    IH : nondecreasing _ -> _ |- _ =>
      rename Hg into Hmid; rename Hv into Hlt;
      destruct (IH Hnd ltac:(lia) Hhi) as [(m & E & Hr & Hg)|[E Hno]] end.
    + left. exists m. repeat split; auto; lia.
    + right. split; [exact E|].
      intros j Hj Hgj.
      destruct (Z_le_gt_dec j ((lo + hi) / 2)) as [Hjm|Hjm];
        [|apply (Hno j); [lia|exact Hgj]].
      rewrite py_get_nonneg in Hgj, Hmid by lia.
      assert (Hij : (Z.to_nat j <= Z.to_nat ((lo + hi) / 2))%nat) by lia.
      pose proof (Hnd _ _ _ _ Hij Hgj Hmid). lia.
  - match goal with Hg : py_get _ _ = Some ?v, Hv : ?v >= x, Hne : ?v <> x,
                    IH : nondecreasing _ -> _ |- _ =>
      rename Hg into Hmid; rename Hv into Hge; rename Hne into Hneq;
      destruct (IH Hnd Hlo ltac:(lia)) as [(m & E & Hr & Hg)|[E Hno]] end.
    + left. exists m. repeat split; auto; lia.
    + right. split; [exact E|].
      intros j Hj Hgj.
      destruct (Z_le_gt_dec ((lo + hi) / 2) j) as [Hjm|Hjm];
        [|apply (Hno j); [lia|exact Hgj]].
      rewrite py_get_nonneg in Hgj, Hmid by lia.
      assert (Hij : (Z.to_nat ((lo + hi) / 2) <= Z.to_nat j)%nat) by lia.
      pose proof (Hnd _ _ _ _ Hij Hmid Hgj). lia.
Qed.

Lemma fact_table_nondecreasing L : nondecreasing (fact_table L).
Proof.
  intros i j a b Hij Ha Hb.
  assert (Hj : (j < L)%nat).
  { rewrite <- (fact_table_length L). apply nth_error_Some. congruence. }
  rewrite fact_table_nth in Ha, Hb by lia.
  injection Ha as <-. injection Hb as <-. now apply fact_mono.
Qed.

(** ** Specification of [factorial_index_of] on well-formed tables *)

Lemma not_is_fact_lt1 x : x < 1 -> ~ is_fact x.
Proof. intros H [k <-]. pose proof (fact_pos k). lia. Qed.

Lemma factorial_index_of_table fuel x L :
  (2 <= L)%nat -> x <= fact fuel ->
  exists res L',
    factorial_index_of fuel x (fact_table L) = Some (res, fact_table L')
    /\ (L <= L')%nat /\ fio_res x res
    /\ (x <= fact (L - 1) -> L' = L).
Proof.
  intros HL Hx. unfold factorial_index_of.
  destruct (Z.ltb_spec x 1) as [Hlt|Hge].
  - exists (false, None), L. repeat split; auto.
    right. split; [reflexivity|]. now apply not_is_fact_lt1.
  - destruct L as [|L0]; [lia|].
    destruct (extend_loop_spec fuel x L0) as (L' & E & Hle & Hb & Hc).
    { pose proof (fact_mono fuel (L0 + fuel) ltac:(lia)). lia. }
    unfold bind, extend_factorials_until_ge. rewrite E. cbn [option_map].
    rewrite fact_table_length.
    destruct (bsearch_spec (fact_table (S L')) x 0 (Z.of_nat (S L') - 1))
      as [(m & Em & Hr & Hg)|[Em Hno]].
    + apply fact_table_nondecreasing.
    + lia.
    + rewrite fact_table_length. lia.
    + rewrite Em. cbn [option_map].
      exists (true, Some m), (S L'). repeat split; try lia.
      * left. exists (Z.to_nat m). rewrite Z2Nat.id by lia. split; [reflexivity|].
        replace m with (Z.of_nat (Z.to_nat m)) in Hg by lia.
        rewrite fact_table_get in Hg by lia. congruence.
      * intros Hx1. replace (S L0 - 1)%nat with L0 in Hx1 by lia.
        destruct Hc as [->|[Hc1 Hc2]]; [reflexivity|].
        pose proof (fact_mono L0 (L' - 1) ltac:(lia)). lia.
    + rewrite Em. cbn [option_map].
      exists (false, None), (S L'). repeat split; try lia.
      * right. split; [reflexivity|]. intros [k Hk].
        destruct (Nat.le_gt_cases k L') as [Hkl|Hkl].
        -- apply (Hno (Z.of_nat k)); [lia|].
           rewrite fact_table_get by lia. congruence.
        -- pose proof (fact_strict L' k ltac:(lia) Hkl). lia.
      * intros Hx1. replace (S L0 - 1)%nat with L0 in Hx1 by lia.
        destruct Hc as [->|[Hc1 Hc2]]; [reflexivity|].
        pose proof (fact_mono L0 (L' - 1) ltac:(lia)). lia.
Qed.

(** The same, phrased on well-formed tables. *)
Lemma factorial_index_of_wf fuel x T :
  wf_table T -> x <= fact fuel ->
  exists res T',
    factorial_index_of fuel x T = Some (res, T')
    /\ wf_table T' /\ fio_res x res.
Proof.
  intros (L & HL & ->) Hx.
  destruct (factorial_index_of_table fuel x L HL Hx) as (res & L' & E & Hle & Hres & _).
  exists res, (fact_table L'). repeat split; auto.
  apply wf_table_fact_table. lia.
Qed.

Lemma fio_res_true x o : fio_res x (true, o) -> is_fact x.
Proof.
  intros [(j & E & Hj)|[E _]]; [|discriminate]. now exists j.
Qed.

Lemma fio_res_false x o : fio_res x (false, o) -> o = None /\ ~ is_fact x.
Proof.
  intros [(j & E & Hj)|[E H]]; [discriminate|]. injection E as <-. auto.
Qed.

Lemma fio_res_true_some x o :
  fio_res x (true, o) -> exists k : nat, o = Some (Z.of_nat k) /\ fact k = x.
Proof.
  intros [(j & E & Hj)|[E _]]; [|discriminate].
  injection E as ->. now exists j.
Qed.

(** ** Specification of the classifiers *)

(** Unfold one monadic step whose factorial lookup is known to succeed. *)
Ltac run_lookup fuel x T HT Hx res T' E HT' Hres :=
  destruct (factorial_index_of_wf fuel x T HT Hx) as (res & T' & E & HT' & Hres);
  unfold bind, is_factorial, n_is_factorial; rewrite E.

Lemma is_pf_trivial_wf fuel n r c T :
  wf_table T -> n <= fact fuel ->
  exists b T', is_pf_trivial fuel n r c T = Some (b, T')
    /\ wf_table T' /\ (b = true <-> pf_trivial_prop n r).
Proof.
  intros HT Hn. unfold is_pf_trivial, pf_trivial_prop.
  destruct (Z.eqb_spec r 0) as [H0|H0]; cbn [orb].
  { exists true, T. repeat split; auto. }
  destruct (Z.eqb_spec r (n - 1)) as [H1|H1]; cbn [orb].
  { exists true, T. repeat split; auto. }
  destruct (Z.eqb_spec r n) as [H2|H2].
  { exists true, T. repeat split; auto. }
  destruct (Z.eqb_spec r 1) as [H3|H3].
  - run_lookup fuel n T HT Hn res T' E HT' Hres.
    destruct res as [[|] o].
    + exists true, T'. repeat split; auto.
      intros _. right; right; right. split; [exact H3|]. eapply fio_res_true; eauto.
    + exists false, T'. repeat split; auto; [discriminate|].
      apply fio_res_false in Hres. intros [?|[?|[?|[_ ?]]]]; try contradiction.
      now destruct Hres.
  - exists false, T. repeat split; auto; [discriminate|].
    intros [?|[?|[?|[? _]]]]; contradiction.
Qed.

Lemma is_pf_F3_wf fuel n r c T :
  wf_table T -> n <= fact fuel ->
  exists b T', is_pf_F3 fuel n r c T = Some (b, T')
    /\ wf_table T' /\ (b = true <-> pf_F3_prop n r c).
Proof.
  intros HT Hn. unfold is_pf_F3, pf_F3_prop.
  run_lookup fuel n T HT Hn res T' E HT' Hres.
  destruct res as [[|] o].
  - destruct (fio_res_true_some _ _ Hres) as (k & -> & Hk).
    destruct (Z.ltb_spec (Z.of_nat k) 3) as [Hlt|Hge].
    + exists false, T'. repeat split; auto; [discriminate|].
      intros (t & Ht & Hf & _). rewrite <- Hk in Hf.
      apply fact_inj in Hf. lia.
    + exists ((r =? n - Z.of_nat k) && (c =? n - 1))%bool, T'.
      repeat split; auto.
      * intros Hb. apply andb_true_iff in Hb. destruct Hb as [Hb1 Hb2].
        exists k. repeat split; auto; lia.
      * intros (t & Ht & Hf & Hr & Hc). rewrite <- Hk in Hf.
        apply fact_inj in Hf. assert (t = k) by lia. subst t.
        apply andb_true_iff. split; lia.
  - apply fio_res_false in Hres. destruct Hres as [-> Hnf].
    exists false, T'. repeat split; auto; [discriminate|].
    intros (t & _ & Hf & _). exfalso. apply Hnf. now exists t.
Qed.

Lemma is_bf_trivial_wf fuel n r c T :
  wf_table T -> n <= fact fuel ->
  exists b T', is_bf_trivial fuel n r c T = Some (b, T')
    /\ wf_table T' /\ (b = true <-> bf_trivial_prop n r).
Proof.
  intros HT Hn. unfold is_bf_trivial, bf_trivial_prop.
  destruct (Z.eqb_spec r 0) as [H0|H0]; cbn [orb].
  { exists true, T. repeat split; auto. }
  destruct (Z.eqb_spec r n) as [H2|H2].
  { exists true, T. repeat split; auto. }
  destruct ((r =? 1) || (r =? n - 1))%bool eqn:Hor.
  - apply orb_true_iff in Hor.
    assert (Hr : r = 1 \/ r = n - 1) by lia.
    run_lookup fuel n T HT Hn res T' E HT' Hres.
    destruct res as [[|] o].
    + exists true, T'. repeat split; auto.
      intros _. right; right. split; [exact Hr|]. eapply fio_res_true; eauto.
    + exists false, T'. repeat split; auto; [discriminate|].
      apply fio_res_false in Hres. intros [?|[?|[_ ?]]]; try contradiction.
      now destruct Hres.
  - apply orb_false_iff in Hor. exists false, T. repeat split; auto; [discriminate|].
    intros [?|[?|[? _]]]; try contradiction. lia.
Qed.

(** ** What one loop iteration emits *)

Lemma pf_body_wf fuel it f3 n r prod0 out T :
  let v := if 0 <? r then prod0 * (n - (r - 1)) else prod0 in
  wf_table T -> v <= fact fuel -> n <= fact fuel ->
  exists new T',
    pf_body fuel it f3 n r (prod0, out) T = Some ((v, out ++ new), T')
    /\ wf_table T' /\ pf_emits it f3 n r v new.
Proof.
  intros v HT Hv Hn. unfold pf_body. fold v.
  run_lookup fuel v T HT Hv res T1 E1 HT1 Hres.
  destruct res as [[|] o].
  - destruct (fio_res_true_some _ _ Hres) as (k & -> & Hk).
    destruct (is_pf_trivial_wf fuel n r (Z.of_nat k) T1 HT1 Hn)
      as (bt & T2 & E2 & HT2 & Hbt).
    rewrite E2. destruct bt.
    + exists (if it then [mkPF n r (Z.of_nat k) "trivial"%string] else []), T2.
      split; [|split; [exact HT2|]].
      * unfold ret. destruct it; [reflexivity|now rewrite app_nil_r].
      * right. exists k, "trivial"%string. split; [exact Hk|]. split; [|reflexivity].
        left. split; [now apply Hbt|reflexivity].
    + assert (Hnt : ~ pf_trivial_prop n r) by (intros H; apply Hbt in H; discriminate).
      destruct (is_pf_F3_wf fuel n r (Z.of_nat k) T2 HT2 Hn)
        as (bf & T3 & E3 & HT3 & Hbf).
      rewrite E3. destruct bf.
      * exists (if f3 then [mkPF n r (Z.of_nat k) "PF_F3"%string] else []), T3.
        split; [|split; [exact HT3|]].
        -- unfold ret. destruct f3; [reflexivity|now rewrite app_nil_r].
        -- right. exists k, "PF_F3"%string. split; [exact Hk|]. split; [|reflexivity].
           right; left. repeat split; auto. now apply Hbf.
      * exists [mkPF n r (Z.of_nat k) "exceptional"%string], T3.
        split; [reflexivity|split; [exact HT3|]].
        right. exists k, "exceptional"%string. split; [exact Hk|]. split; [|reflexivity].
        right; right. repeat split; auto.
        intros H; apply Hbf in H; discriminate.
  - apply fio_res_false in Hres. destruct Hres as [-> Hnf].
    exists [], T1. rewrite app_nil_r. repeat split; auto. now left.
Qed.

Lemma bf_body_wf fuel it n r v out T :
  comb n r = Some v ->
  wf_table T -> v <= fact fuel -> n <= fact fuel ->
  exists new T',
    bf_body fuel it n r out T = Some (out ++ new, T')
    /\ wf_table T' /\ bf_emits it n r v new.
Proof.
  intros Hc HT Hv Hn. unfold bf_body.
  unfold bind at 1. unfold lift_opt. rewrite Hc.
  run_lookup fuel v T HT Hv res T1 E1 HT1 Hres.
  destruct res as [[|] o].
  - destruct (fio_res_true_some _ _ Hres) as (k & -> & Hk).
    destruct (is_bf_trivial_wf fuel n r (Z.of_nat k) T1 HT1 Hn)
      as (bt & T2 & E2 & HT2 & Hbt).
    rewrite E2. destruct bt.
    + exists (if it then [mkBF n r (Z.of_nat k) "trivial"%string] else []), T2.
      split; [|split; [exact HT2|]].
      * unfold ret. destruct it; [reflexivity|now rewrite app_nil_r].
      * right. exists k, "trivial"%string. split; [exact Hk|]. split; [|reflexivity].
        left. split; [now apply Hbt|reflexivity].
    + exists [mkBF n r (Z.of_nat k) "exceptional"%string], T2.
      split; [reflexivity|split; [exact HT2|]].
      right. exists k, "exceptional"%string. split; [exact Hk|]. split; [|reflexivity].
      right. split; [|reflexivity].
      intros H; apply Hbt in H; discriminate.
  - apply fio_res_false in Hres. destruct Hres as [-> Hnf].
    exists [], T1. rewrite app_nil_r. repeat split; auto. now left.
Qed.

(** ** Loop outputs as concatenated per-iteration chunks *)

Lemma chunks_Forall {A R} (P : A -> list R -> Prop) (Q : R -> Prop) xs out :
  (forall x new, In x xs -> P x new -> Forall Q new) ->
  chunks P xs out -> Forall Q out.
Proof.
  intros HP Hc. induction Hc as [|x xs new rest Hx Hc IH]; [constructor|].
  apply Forall_app. split.
  - apply (HP x); [now left|exact Hx].
  - apply IH. intros y ny Hy. apply HP. now right.
Qed.

Lemma chunks_Forall2 {A R} (P : A -> list R -> Prop) (E : R -> R -> Prop) xs o1 o2 :
  (forall x n1 n2, In x xs -> P x n1 -> P x n2 -> Forall2 E n1 n2) ->
  chunks P xs o1 -> chunks P xs o2 -> Forall2 E o1 o2.
Proof.
  intros HP H1. revert o2.
  induction H1 as [|x xs new rest Hx Hc IH]; intros o2 H2.
  - inversion H2. constructor.
  - inversion H2 as [|x' xs' new2 rest2 Hx2 Hc2]; subst.
    apply Forall2_app.
    + apply (HP x); [now left|assumption..].
    + apply IH; [|assumption]. intros y a b Hy. apply HP. now right.
Qed.

Lemma chunks_In {A R} (P : A -> list R -> Prop) xs out x rec :
  In x xs -> (forall new, P x new -> In rec new) ->
  chunks P xs out -> In rec out.
Proof.
  intros Hin HP Hc. induction Hc as [|y ys new rest Hy Hc IH]; [contradiction|].
  apply in_or_app. destruct Hin as [->|Hin].
  - left. now apply HP.
  - right. now apply IH.
Qed.

Lemma chunks_keys {A R} (P : A -> list R -> Prop) (key : A -> R -> Prop) xs out :
  (forall x new, In x xs -> P x new -> Forall (key x) new) ->
  chunks P xs out -> Forall (fun b => exists y, In y xs /\ key y b) out.
Proof.
  intros HP Hc. induction Hc as [|x xs new rest Hx Hc IH]; [constructor|].
  apply Forall_app. split.
  - eapply Forall_impl; [|apply (HP x new (or_introl eq_refl) Hx)].
    intros b Hb. exists x. split; [now left|exact Hb].
  - eapply Forall_impl; [|apply IH].
    + intros b (y & Hy & Hb). exists y. split; [now right|exact Hb].
    + intros y ny Hy. apply HP. now right.
Qed.

Lemma StronglySorted_app {R} (ltR : R -> R -> Prop) l1 l2 :
  StronglySorted ltR l1 -> StronglySorted ltR l2 ->
  (forall a b, In a l1 -> In b l2 -> ltR a b) ->
  StronglySorted ltR (l1 ++ l2).
Proof.
  intros H1 H2 Hx. induction l1 as [|a l1 IH]; [exact H2|].
  apply StronglySorted_inv in H1. destruct H1 as [H1 Ha].
  cbn [app]. constructor.
  - apply IH; [exact H1|]. intros u v Hu. apply Hx. now right.
  - apply Forall_app. split; [exact Ha|].
    apply Forall_forall. intros b Hb. apply Hx; [now left|exact Hb].
Qed.

(** Chunks of sorted keys are sorted: every record of a chunk carries its
    element as key, chunks are sorted inside, and keys grow along [xs]. *)
Lemma chunks_sorted {A R} (P : A -> list R -> Prop)
    (ltA : A -> A -> Prop) (ltR : R -> R -> Prop) (key : A -> R -> Prop) xs out :
  (forall x new, In x xs -> P x new -> Forall (key x) new /\ StronglySorted ltR new) ->
  (forall x y a b, ltA x y -> key x a -> key y b -> ltR a b) ->
  StronglySorted ltA xs ->
  chunks P xs out -> StronglySorted ltR out.
Proof.
  intros HP Hlt Hs Hc. induction Hc as [|x xs new rest Hx Hc IH]; [constructor|].
  apply StronglySorted_inv in Hs. destruct Hs as [Hs Hall].
  destruct (HP x new (or_introl eq_refl) Hx) as [Hk Hsn].
  assert (HP' : forall y ny, In y xs -> P y ny ->
                  Forall (key y) ny /\ StronglySorted ltR ny).
  { intros y ny Hy. apply HP. now right. }
  apply StronglySorted_app; [exact Hsn|now apply IH|].
  intros a b Ha Hb.
  pose proof (chunks_keys P key xs rest (fun y ny Hy Hp => proj1 (HP' y ny Hy Hp)) Hc) as Hkeys.
  rewrite Forall_forall in Hkeys, Hk, Hall.
  destruct (Hkeys b Hb) as (y & Hy & Hyb).
  eapply Hlt; [apply Hall; exact Hy|apply Hk; exact Ha|exact Hyb].
Qed.

(** ** The quantities the searches test *)

Lemma falling_step n a prod0 :
  prod0 = falling n (pred a) ->
  (if 0 <? Z.of_nat a then prod0 * (n - (Z.of_nat a - 1)) else prod0) = falling n a.
Proof.
  intros ->. destruct a as [|a].
  - reflexivity.
  - destruct (Z.ltb_spec 0 (Z.of_nat (S a))); [|lia].
    cbn [pred falling]. f_equal. lia.
Qed.

Lemma falling_fact nn r :
  (r <= nn)%nat -> falling (Z.of_nat nn) r * fact (nn - r) = fact nn.
Proof.
  induction r as [|r IH]; intros Hr.
  - cbn [falling]. rewrite Nat.sub_0_r. lia.
  - cbn [falling]. rewrite <- IH by lia.
    replace (nn - r)%nat with (S (nn - S r)) by lia.
    rewrite fact_S. replace (Z.of_nat (S (nn - S r))) with (Z.of_nat nn - Z.of_nat r) by lia.
    ring.
Qed.

Lemma falling_le_fact nn r :
  (r <= nn)%nat -> falling (Z.of_nat nn) r <= fact nn.
Proof.
  intros Hr. pose proof (falling_fact nn r Hr) as E.
  pose proof (fact_pos (nn - r)). pose proof (fact_pos nn). nia.
Qed.

Lemma binom_le_fact n k : 0 <= binom n k <= fact n.
Proof.
  revert k. induction n as [|n IH]; intros k.
  - destruct k; cbn; change (fact 0) with 1; lia.
  - destruct k as [|k].
    + cbn [binom]. pose proof (fact_pos (S n)). lia.
    + cbn [binom]. rewrite fact_S.
      pose proof (IH k). pose proof (IH (S k)).
      destruct n as [|n].
      * destruct k; cbn in *; change (fact 0) with 1; lia.
      * nia.
Qed.

Lemma py_range_0 h : py_range 0 h = map Z.of_nat (seq 0 (Z.to_nat h)).
Proof.
  unfold py_range. rewrite Z.sub_0_r. apply map_ext. intros i. lia.
Qed.

Lemma seq_of_nat_sorted a len : StronglySorted Z.lt (map Z.of_nat (seq a len)).
Proof.
  revert a. induction len as [|len IH]; intros a; [constructor|].
  cbn [seq map]. constructor; [apply IH|].
  apply Forall_forall. intros z Hz.
  apply in_map_iff in Hz. destruct Hz as (i & <- & Hi).
  apply in_seq in Hi. lia.
Qed.

Lemma py_range_0_sorted h : StronglySorted Z.lt (py_range 0 h).
Proof. rewrite py_range_0. apply seq_of_nat_sorted. Qed.

Lemma py_range_0_In h z : In z (py_range 0 h) <-> 0 <= z < h.
Proof.
  rewrite py_range_0, in_map_iff. split.
  - intros (i & <- & Hi). apply in_seq in Hi. lia.
  - intros Hz. exists (Z.to_nat z). split; [lia|]. apply in_seq. lia.
Qed.

(** ** The loops of [search_pf] on well-formed tables *)

Lemma pf_inner_wf fuel it f3 nn :
  (nn <= fuel)%nat ->
  forall len a out T,
    (a + len <= S nn)%nat -> wf_table T ->
    exists news p T',
      for_each (map Z.of_nat (seq a len)) (pf_body fuel it f3 (Z.of_nat nn))
               (falling (Z.of_nat nn) (pred a), out) T
      = Some ((p, out ++ news), T')
      /\ wf_table T'
      /\ chunks (fun r new => pf_emits it f3 (Z.of_nat nn) r
                                (falling (Z.of_nat nn) (Z.to_nat r)) new)
                (map Z.of_nat (seq a len)) news.
Proof.
  intros Hfuel. pose proof (fact_mono nn fuel Hfuel) as Hff.
  induction len as [|len IH]; intros a out T Hlen HT.
  - exists [], (falling (Z.of_nat nn) (pred a)), T.
    rewrite app_nil_r. repeat split; auto. constructor.
  - cbn [seq map for_each]. unfold bind.
    pose proof (pf_body_wf fuel it f3 (Z.of_nat nn) (Z.of_nat a)
                  (falling (Z.of_nat nn) (pred a)) out T) as Hb.
    cbv zeta in Hb. rewrite (falling_step _ _ _ eq_refl) in Hb.
    destruct Hb as (new & T1 & E1 & HT1 & Hnew); [exact HT| | |].
    { pose proof (falling_le_fact nn a ltac:(lia)). lia. }
    { pose proof (fact_ge nn). lia. }
    rewrite E1.
    destruct (IH (S a) (out ++ new) T1 ltac:(lia) HT1) as (news & p & T2 & E2 & HT2 & Hnews).
    cbn [pred] in E2. rewrite E2.
    exists (new ++ news), p, T2. rewrite app_assoc. repeat split; auto.
    constructor; [|exact Hnews]. now rewrite Nat2Z.id.
Qed.

Lemma pf_outer_wf fuel it f3 :
  forall len a out T,
    (a + len <= S fuel)%nat -> wf_table T ->
    exists news T',
      for_each (map Z.of_nat (seq a len))
        (fun n out =>
           '(_, out') <- for_each (py_range 0 (n + 1))
                           (pf_body fuel it f3 n) (1, out) ;;
           ret out') out T
      = Some (out ++ news, T')
      /\ wf_table T'
      /\ chunks (pf_row it f3) (map Z.of_nat (seq a len)) news.
Proof.
  induction len as [|len IH]; intros a out T Hlen HT.
  - exists [], T. rewrite app_nil_r. repeat split; auto. constructor.
  - cbn [seq map for_each]. unfold bind at 1. unfold bind at 1.
    rewrite py_range_0.
    replace (Z.to_nat (Z.of_nat a + 1)) with (S a) by lia.
    destruct (pf_inner_wf fuel it f3 a ltac:(lia) (S a) 0%nat out T ltac:(lia) HT)
      as (row & p & T1 & E1 & HT1 & Hrow).
    cbn [pred falling] in E1. rewrite E1. unfold ret at 1.
    destruct (IH (S a) (out ++ row) T1 ltac:(lia) HT1) as (news & T2 & E2 & HT2 & Hnews).
    rewrite E2. exists (row ++ news), T2. rewrite app_assoc. repeat split; auto.
    constructor; [|exact Hnews].
    unfold pf_row. rewrite py_range_0.
    now replace (Z.to_nat (Z.of_nat a + 1)) with (S a) by lia.
Qed.

Lemma search_pf_wf fuel n_max it f3 T :
  n_max <= Z.of_nat fuel -> wf_table T ->
  exists out T', search_pf fuel n_max it f3 T = Some (out, T')
    /\ wf_table T' /\ pf_out it f3 n_max out.
Proof.
  intros Hn HT. unfold search_pf, pf_out. rewrite py_range_0.
  destruct (pf_outer_wf fuel it f3 (Z.to_nat (n_max + 1)) 0%nat [] T ltac:(lia) HT)
    as (out & T' & E & HT' & Hout).
  exists out, T'. auto.
Qed.

(** ** The loops of [search_bf] on well-formed tables *)

Lemma comb_of_nat n k : comb (Z.of_nat n) (Z.of_nat k) = Some (binom n k).
Proof.
  unfold comb.
  destruct (Z.ltb_spec (Z.of_nat n) 0); [lia|].
  destruct (Z.ltb_spec (Z.of_nat k) 0); [lia|].
  cbn [orb]. now rewrite !Nat2Z.id.
Qed.

Lemma bf_inner_wf fuel it nn :
  (nn <= fuel)%nat ->
  forall len a out T,
    wf_table T ->
    exists news T',
      for_each (map Z.of_nat (seq a len)) (bf_body fuel it (Z.of_nat nn)) out T
      = Some (out ++ news, T')
      /\ wf_table T'
      /\ chunks (fun r new => bf_emits it (Z.of_nat nn) r
                                (binom nn (Z.to_nat r)) new)
                (map Z.of_nat (seq a len)) news.
Proof.
  intros Hfuel. pose proof (fact_mono nn fuel Hfuel) as Hff.
  induction len as [|len IH]; intros a out T HT.
  - exists [], T. rewrite app_nil_r. repeat split; auto. constructor.
  - cbn [seq map for_each]. unfold bind.
    destruct (bf_body_wf fuel it (Z.of_nat nn) (Z.of_nat a) (binom nn a) out T)
      as (new & T1 & E1 & HT1 & Hnew).
    { apply comb_of_nat. }
    { exact HT. }
    { pose proof (binom_le_fact nn a). lia. }
    { pose proof (fact_ge nn). lia. }
    rewrite E1.
    destruct (IH (S a) (out ++ new) T1 HT1) as (news & T2 & E2 & HT2 & Hnews).
    rewrite E2.
    exists (new ++ news), T2. rewrite app_assoc. repeat split; auto.
    constructor; [|exact Hnews]. now rewrite Nat2Z.id.
Qed.

Lemma bf_outer_wf fuel it :
  forall len a out T,
    (a + len <= S fuel)%nat -> wf_table T ->
    exists news T',
      for_each (map Z.of_nat (seq a len))
        (fun n out => for_each (py_range 0 (n + 1)) (bf_body fuel it n) out) out T
      = Some (out ++ news, T')
      /\ wf_table T'
      /\ chunks (bf_row it) (map Z.of_nat (seq a len)) news.
Proof.
  induction len as [|len IH]; intros a out T Hlen HT.
  - exists [], T. rewrite app_nil_r. repeat split; auto. constructor.
  - cbn [seq map for_each]. unfold bind at 1.
    rewrite py_range_0.
    destruct (bf_inner_wf fuel it a ltac:(lia) (Z.to_nat (Z.of_nat a + 1)) 0%nat out T HT)
      as (row & T1 & E1 & HT1 & Hrow).
    rewrite E1.
    destruct (IH (S a) (out ++ row) T1 ltac:(lia) HT1) as (news & T2 & E2 & HT2 & Hnews).
    rewrite E2. exists (row ++ news), T2. rewrite app_assoc. repeat split; auto.
    constructor; [|exact Hnews].
    unfold bf_row. rewrite py_range_0, Nat2Z.id. exact Hrow.
Qed.

Lemma search_bf_wf fuel n_max it T :
  n_max <= Z.of_nat fuel -> wf_table T ->
  exists out T', search_bf fuel n_max it T = Some (out, T')
    /\ wf_table T' /\ bf_out it n_max out.
Proof.
  intros Hn HT. unfold search_bf, bf_out. rewrite py_range_0.
  destruct (bf_outer_wf fuel it (Z.to_nat (n_max + 1)) 0%nat [] T ltac:(lia) HT)
    as (out & T' & E & HT' & Hout).
  exists out, T'. auto.
Qed.

(** ** Claims about the factorial index *)

(** C1: on every table the program can hold, and for every [k], looking up
    [k!] reports found with an index whose factorial is [k!]: exactly [k]
    when [k >= 2], and 0 or 1 when the value is 1 (k = 0 or k = 1). *)
Theorem factorial_index_of_factorial (fuel k : nat) (T : table) :
  wf_table T -> fact k <= fact fuel ->
  exists (j : nat) T',
    factorial_index_of fuel (fact k) T = Some ((true, Some (Z.of_nat j)), T')
    /\ wf_table T'
    /\ ((2 <= k)%nat -> j = k)
    /\ ((k <= 1)%nat -> (j <= 1)%nat).
Proof.
  intros HT Hk.
  destruct (factorial_index_of_wf fuel (fact k) T HT Hk) as (res & T' & E & HT' & Hres).
  destruct Hres as [(j & -> & Hj)|[_ Hno]].
  - exists j, T'. apply fact_inj in Hj. repeat split; auto; lia.
  - exfalso. apply Hno. now exists k.
Qed.

Lemma factorial_index_of_factorial_witness :
  exists (j : nat) T',
    factorial_index_of 5 (fact 5) facts0 = Some ((true, Some (Z.of_nat j)), T')
    /\ wf_table T'
    /\ ((2 <= 5)%nat -> j = 5%nat)
    /\ ((5 <= 1)%nat -> (j <= 1)%nat).
Proof.
  apply (factorial_index_of_factorial 5 5 facts0).
  - exists 2%nat. split; [lia|reflexivity].
  - vm_compute. discriminate.
Defined.

(** C2: on every table the program can hold, looking up a value that is not
    the factorial of any [k >= 0] (in particular any value below 1) reports
    not-found: there are no false positives. *)
Theorem factorial_index_of_non_factorial (fuel : nat) (x : Z) (T : table) :
  wf_table T -> x <= fact fuel -> ~ is_fact x ->
  exists T',
    factorial_index_of fuel x T = Some ((false, None), T') /\ wf_table T'.
Proof.
  intros HT Hx Hno.
  destruct (factorial_index_of_wf fuel x T HT Hx) as (res & T' & E & HT' & Hres).
  destruct Hres as [(j & _ & Hj)|[-> _]].
  - exfalso. apply Hno. now exists j.
  - now exists T'.
Qed.

Lemma factorial_index_of_non_factorial_witness :
  exists T',
    factorial_index_of 4 7 facts0 = Some ((false, None), T') /\ wf_table T'.
Proof.
  apply (factorial_index_of_non_factorial 4 7 facts0).
  - exists 2%nat. split; [lia|reflexivity].
  - vm_compute. discriminate.
  - intros [k Hk].
    destruct k as [|[|[|[|k]]]]; try discriminate Hk.
    pose proof (fact_mono 4 (S (S (S (S k)))) ltac:(lia)) as H.
    change (fact 4) with 24 in H. lia.
Defined.

(** C3, as stated, fails: the index returned for 1 is 0 on the initial table
    and 1 on the table extended to [1; 1; 2], so no single index is returned
    on all tables. *)
Lemma tie_break_not_fixed :
  ~ (exists k, forall T, wf_table T ->
       exists T', factorial_index_of 2 1 T = Some ((true, Some k), T')).
Proof.
  intros [k H].
  destruct (H facts0 facts0_wf) as [T1 E1].
  destruct (H (fact_table 3) (wf_table_fact_table 3 ltac:(lia))) as [T2 E2].
  vm_compute in E1, E2. congruence.
Qed.

(** C3, amended: on every table the program can hold, looking up 1 reports
    found with index 0 or 1 and leaves the table unchanged; which of the two
    depends on the table: 0 on the initial table, 1 on [1; 1; 2]. *)
Theorem factorial_index_of_one (fuel : nat) (T : table) :
  wf_table T ->
  exists k,
    factorial_index_of fuel 1 T = Some ((true, Some k), T)
    /\ (k = 0 \/ k = 1)
    /\ (T = facts0 -> k = 0)
    /\ (T = [1; 1; 2] -> k = 1).
Proof.
  intros (L & HL & ->).
  destruct (factorial_index_of_table fuel 1 L HL (fact_pos fuel))
    as (res & L' & E & _ & Hres & Hsame).
  rewrite (Hsame (fact_pos _)) in E. clear Hsame L'.
  destruct Hres as [(j & -> & Hj)|[_ Hno]].
  - exists (Z.of_nat j).
    change 1 with (fact 0) in Hj. apply fact_inj in Hj.
    split; [exact E|]. split; [lia|]. split; intros HT.
    + rewrite HT in E.
      assert (E0 : factorial_index_of fuel 1 facts0 = Some ((true, Some 0), facts0))
        by (destruct fuel; reflexivity).
      congruence.
    + rewrite HT in E.
      assert (E1 : factorial_index_of fuel 1 [1; 1; 2] = Some ((true, Some 1), [1; 1; 2]))
        by (destruct fuel; reflexivity).
      congruence.
  - exfalso. apply Hno. now exists 0%nat.
Qed.

Lemma factorial_index_of_one_witness :
  exists k,
    factorial_index_of 3 1 [1; 1; 2] = Some ((true, Some k), [1; 1; 2])
    /\ (k = 0 \/ k = 1)
    /\ ([1; 1; 2] = facts0 -> k = 0)
    /\ ([1; 1; 2] = [1; 1; 2] -> k = 1).
Proof.
  apply (factorial_index_of_one 3 [1; 1; 2]).
  exists 3%nat. split; [lia|reflexivity].
Defined.

(** ** Claims about the table *)

Lemma fact_table_app L L' :
  (L <= L')%nat -> exists suf, fact_table L' = fact_table L ++ suf.
Proof.
  intros H. exists (map fact (seq L (L' - L))).
  unfold fact_table. rewrite <- map_app, <- seq_app. f_equal. f_equal. lia.
Qed.

Lemma extend_loop_covered f x L :
  x <= fact L -> extend_loop f x (fact_table (S L)) = Some (fact_table (S L)).
Proof.
  intros Hx. rewrite extend_loop_eq, fact_table_last.
  destruct (Z.ltb_spec (fact L) x); [lia|reflexivity].
Qed.

Lemma extend_calls_wf fuel xs T :
  wf_table T -> Forall (fun x => x <= fact fuel) xs ->
  exists L, (2 <= L)%nat /\ extend_calls fuel xs T = Some (tt, fact_table L)
            /\ exists suf, fact_table L = T ++ suf.
Proof.
  intros HT Hxs. revert T HT. unfold extend_calls.
  induction Hxs as [|x xs Hx Hxs IH]; intros T (L & HL & ->).
  - exists L. repeat split; auto. exists []. now rewrite app_nil_r.
  - cbn [for_each]. unfold bind, extend_factorials_until_ge.
    destruct L as [|L0]; [lia|].
    destruct (extend_loop_spec fuel x L0) as (L' & E & Hle & _).
    { pose proof (fact_mono fuel (L0 + fuel) ltac:(lia)). lia. }
    rewrite E. cbn [option_map].
    destruct (IH (fact_table (S L')) (wf_table_fact_table (S L') ltac:(lia)))
      as (L2 & HL2 & E2 & suf2 & Hs2).
    exists L2. split; [exact HL2|]. split; [exact E2|].
    destruct (fact_table_app (S L0) (S L') ltac:(lia)) as [suf1 Hs1].
    exists (suf1 ++ suf2). now rewrite Hs2, Hs1, app_assoc.
Qed.

(** C8: after any sequence of extension calls from the initial table, the
    table holds [k!] at every index [k] (a prefix of the factorial sequence
    that still starts with the two seed entries), is non-decreasing, is
    strictly increasing from index 1 (hence from index 2) onward, and a
    further call only appends and is idempotent: repeating it with the same
    bound changes nothing. *)
Theorem extend_calls_invariant (fuel : nat) (xs : list Z) :
  Forall (fun x => x <= fact fuel) xs ->
  exists T,
    extend_calls fuel xs facts0 = Some (tt, T)
    /\ (exists suf, T = facts0 ++ suf)
    /\ (forall k v, nth_error T k = Some v -> v = fact k)
    /\ nondecreasing T
    /\ (forall i j a b, (1 <= i < j)%nat ->
          nth_error T i = Some a -> nth_error T j = Some b -> a < b)
    /\ (forall x, x <= fact fuel ->
          exists suf,
            extend_factorials_until_ge fuel x T = Some (tt, T ++ suf)
            /\ extend_factorials_until_ge fuel x (T ++ suf) = Some (tt, T ++ suf)).
Proof.
  intros Hxs.
  destruct (extend_calls_wf fuel xs facts0 facts0_wf Hxs) as (L & HL & E & suf & Hs).
  exists (fact_table L). split; [exact E|]. split; [now exists suf|].
  assert (Hnth : forall k v, nth_error (fact_table L) k = Some v -> v = fact k).
  { intros k v Hk.
    assert (k < L)%nat.
    { rewrite <- (fact_table_length L). apply nth_error_Some. congruence. }
    rewrite fact_table_nth in Hk by lia. congruence. }
  split; [exact Hnth|]. split; [apply fact_table_nondecreasing|]. split.
  - intros i j a b Hij Ha Hb.
    rewrite (Hnth _ _ Ha), (Hnth _ _ Hb). apply fact_strict; lia.
  - intros x Hx. destruct L as [|L0]; [lia|].
    destruct (extend_loop_spec fuel x L0) as (L' & E' & Hle & Hb & _).
    { pose proof (fact_mono fuel (L0 + fuel) ltac:(lia)). lia. }
    destruct (fact_table_app (S L0) (S L') ltac:(lia)) as [suf1 Hs1].
    exists suf1. unfold extend_factorials_until_ge.
    rewrite <- Hs1, E', (extend_loop_covered fuel x L' Hb). auto.
Qed.

Lemma extend_calls_invariant_witness :
  exists T,
    extend_calls 6 [24; 3; 100; 24] facts0 = Some (tt, T)
    /\ (exists suf, T = facts0 ++ suf)
    /\ (forall k v, nth_error T k = Some v -> v = fact k)
    /\ nondecreasing T
    /\ (forall i j a b, (1 <= i < j)%nat ->
          nth_error T i = Some a -> nth_error T j = Some b -> a < b)
    /\ (forall x, x <= fact 6 ->
          exists suf,
            extend_factorials_until_ge 6 x T = Some (tt, T ++ suf)
            /\ extend_factorials_until_ge 6 x (T ++ suf) = Some (tt, T ++ suf)).
Proof.
  apply (extend_calls_invariant 6 [24; 3; 100; 24]).
  repeat constructor; vm_compute; discriminate.
Defined.

(** ** Records of a search output *)

Lemma pf_out_Forall it f3 n_max out (Q : PFRecord -> Prop) :
  (forall n r (c : nat) cls,
      0 <= r <= n -> n <= n_max ->
      fact c = falling n (Z.to_nat r) ->
      pf_class_of n r (Z.of_nat c) cls -> pf_keep it f3 cls = true ->
      Q (mkPF n r (Z.of_nat c) cls)) ->
  pf_out it f3 n_max out -> Forall Q out.
Proof.
  intros HQ. unfold pf_out. apply chunks_Forall.
  intros n row Hn. apply py_range_0_In in Hn.
  unfold pf_row. apply chunks_Forall.
  intros r new Hr. apply py_range_0_In in Hr.
  intros [[_ ->]|(c & cls & Hc & Hcls & ->)]; [constructor|].
  destruct (pf_keep it f3 cls) eqn:Hk; [|constructor].
  constructor; [|constructor]. apply HQ; auto; lia.
Qed.

Lemma bf_out_Forall it n_max out (Q : BFRecord -> Prop) :
  (forall n r (c : nat) cls,
      0 <= r <= n -> n <= n_max ->
      fact c = binom (Z.to_nat n) (Z.to_nat r) ->
      bf_class_of n r cls -> bf_keep it cls = true ->
      Q (mkBF n r (Z.of_nat c) cls)) ->
  bf_out it n_max out -> Forall Q out.
Proof.
  intros HQ. unfold bf_out. apply chunks_Forall.
  intros n row Hn. apply py_range_0_In in Hn.
  unfold bf_row. apply chunks_Forall.
  intros r new Hr. apply py_range_0_In in Hr.
  intros [[_ ->]|(c & cls & Hc & Hcls & ->)]; [constructor|].
  destruct (bf_keep it cls) eqn:Hk; [|constructor].
  constructor; [|constructor]. apply HQ; auto; lia.
Qed.

Lemma pf_emits_keys it f3 n r v new :
  pf_emits it f3 n r v new ->
  Forall (fun rec => pf_n rec = n /\ pf_r rec = r) new
  /\ StronglySorted pf_lex new.
Proof.
  intros [[_ ->]|(c & cls & _ & _ & ->)]; [split; constructor|].
  destruct (pf_keep it f3 cls); split; repeat constructor.
Qed.

Lemma bf_emits_keys it n r v new :
  bf_emits it n r v new ->
  Forall (fun rec => bf_n rec = n /\ bf_r rec = r) new
  /\ StronglySorted bf_lex new.
Proof.
  intros [[_ ->]|(c & cls & _ & _ & ->)]; [split; constructor|].
  destruct (bf_keep it cls); split; repeat constructor.
Qed.

Lemma pf_row_keys it f3 n row :
  pf_row it f3 n row ->
  Forall (fun rec => pf_n rec = n) row /\ StronglySorted pf_lex row.
Proof.
  intros Hrow. split.
  - eapply chunks_Forall; [|exact Hrow].
    intros r new _ Hnew. apply pf_emits_keys in Hnew.
    eapply Forall_impl; [|exact (proj1 Hnew)]. now intros rec [H _].
  - eapply (chunks_sorted _ Z.lt pf_lex
              (fun r rec => pf_n rec = n /\ pf_r rec = r));
      [| |apply py_range_0_sorted|exact Hrow].
    + intros r new _ Hnew. eapply pf_emits_keys; exact Hnew.
    + intros x y a b Hxy [Ha1 Ha2] [Hb1 Hb2]. right. split; congruence || lia.
Qed.

Lemma bf_row_keys it n row :
  bf_row it n row ->
  Forall (fun rec => bf_n rec = n) row /\ StronglySorted bf_lex row.
Proof.
  intros Hrow. split.
  - eapply chunks_Forall; [|exact Hrow].
    intros r new _ Hnew. apply bf_emits_keys in Hnew.
    eapply Forall_impl; [|exact (proj1 Hnew)]. now intros rec [H _].
  - eapply (chunks_sorted _ Z.lt bf_lex
              (fun r rec => bf_n rec = n /\ bf_r rec = r));
      [| |apply py_range_0_sorted|exact Hrow].
    + intros r new _ Hnew. eapply bf_emits_keys; exact Hnew.
    + intros x y a b Hxy [Ha1 Ha2] [Hb1 Hb2]. right. split; congruence || lia.
Qed.

Lemma pf_out_sorted it f3 n_max out :
  pf_out it f3 n_max out -> StronglySorted pf_lex out.
Proof.
  intros Hout.
  eapply (chunks_sorted _ Z.lt pf_lex (fun n rec => pf_n rec = n));
    [| |apply py_range_0_sorted|exact Hout].
  - intros n row _ Hrow. eapply pf_row_keys; exact Hrow.
  - intros x y a b Hxy Ha Hb. left. lia.
Qed.

Lemma bf_out_sorted it n_max out :
  bf_out it n_max out -> StronglySorted bf_lex out.
Proof.
  intros Hout.
  eapply (chunks_sorted _ Z.lt bf_lex (fun n rec => bf_n rec = n));
    [| |apply py_range_0_sorted|exact Hout].
  - intros n row _ Hrow. eapply bf_row_keys; exact Hrow.
  - intros x y a b Hxy Ha Hb. left. lia.
Qed.

(** Two members of a strictly sorted list are equal or strictly ordered. *)
Lemma StronglySorted_In {R} (ltR : R -> R -> Prop) l a b :
  StronglySorted ltR l -> In a l -> In b l -> a = b \/ ltR a b \/ ltR b a.
Proof.
  intros Hs. induction Hs as [|x l Hs IH Hx]; intros Ha Hb; [contradiction|].
  rewrite Forall_forall in Hx.
  destruct Ha as [<-|Ha], Hb as [<-|Hb]; auto.
Qed.

(** ** Claim about classification *)

Lemma pf_class_of_tagged fuel n r c cls :
  n <= fact fuel -> pf_class_of n r c cls ->
  In cls ["trivial"; "PF_F3"; "exceptional"]%string
  /\ pf_tagged fuel (mkPF n r c cls).
Proof.
  intros Hn Hcls. split.
  - destruct Hcls as [[_ ->]|[(_ & _ & ->)|(_ & _ & ->)]]; cbn; auto.
  - intros T HT. cbn [pf_n pf_r pf_c pf_cls].
    destruct (is_pf_trivial_wf fuel n r c T HT Hn) as (bt & Ta & Ea & _ & Hbt).
    destruct (is_pf_F3_wf fuel n r c T HT Hn) as (bf & Tb & Eb & _ & Hbf).
    exists bt, bf, Ta, Tb. split; [exact Ea|]. split; [exact Eb|].
    destruct Hcls as [[Ht ->]|[(Hnt & Hf & ->)|(Hnt & Hnf & ->)]].
    + apply Hbt in Ht. now subst bt.
    + destruct bt; [exfalso; now apply Hnt, Hbt|].
      apply Hbf in Hf. now subst bf.
    + destruct bt; [exfalso; now apply Hnt, Hbt|].
      destruct bf; [exfalso; now apply Hnf, Hbf|]. reflexivity.
Qed.

Lemma bf_class_of_tagged fuel n r c cls :
  n <= fact fuel -> bf_class_of n r cls ->
  In cls ["trivial"; "exceptional"]%string
  /\ bf_tagged fuel (mkBF n r c cls).
Proof.
  intros Hn Hcls. split.
  - destruct Hcls as [[_ ->]|[_ ->]]; cbn; auto.
  - intros T HT. cbn [bf_n bf_r bf_c bf_cls].
    destruct (is_bf_trivial_wf fuel n r c T HT Hn) as (bt & Ta & Ea & _ & Hbt).
    exists bt, Ta. split; [exact Ea|].
    destruct Hcls as [[Ht ->]|[Hnt ->]].
    + apply Hbt in Ht. now subst bt.
    + destruct bt; [exfalso; now apply Hnt, Hbt|]. reflexivity.
Qed.

(** Enough fuel always exists: [Z.to_nat x] entries cover [x]. *)
Lemma enough_fuel x : x <= fact (Z.to_nat x).
Proof. pose proof (fact_ge (Z.to_nat x)). lia. Qed.

Lemma le_fuel_fact fuel n : n <= Z.of_nat fuel -> n <= fact fuel.
Proof. intros H. pose proof (fact_ge fuel). lia. Qed.

(** ** Claims about repeated runs *)

(** C5, as stated, fails: a second call with the same arguments starts from
    the table the first call left behind, and returns a different list (the
    index recorded for the value 1 changes from 0 to 1). *)
Lemma repeated_search_differs :
  (exists out1 T1 out2 T2,
      search_pf 2 2 true true facts0 = Some (out1, T1)
      /\ search_pf 2 2 true true T1 = Some (out2, T2)
      /\ out1 <> out2)
  /\ (exists out1 T1 out2 T2,
        search_bf 2 2 true facts0 = Some (out1, T1)
        /\ search_bf 2 2 true T1 = Some (out2, T2)
        /\ out1 <> out2).
Proof.
  split.
  - do 4 eexists. split; [vm_compute; reflexivity|].
    split; [vm_compute; reflexivity|]. discriminate.
  - do 4 eexists. split; [vm_compute; reflexivity|].
    split; [vm_compute; reflexivity|]. discriminate.
Qed.

Lemma pf_F3_prop_large n r c : pf_F3_prop n r c -> 5 <= c.
Proof.
  intros (t & Ht & Hf & _ & ->).
  pose proof (fact_mono 3 t Ht) as H. change (fact 3) with 6 in H. lia.
Qed.

Lemma pf_class_of_agree n r (c1 c2 : nat) cls1 cls2 :
  fact c1 = fact c2 ->
  pf_class_of n r (Z.of_nat c1) cls1 -> pf_class_of n r (Z.of_nat c2) cls2 ->
  cls1 = cls2.
Proof.
  intros Hc H1 H2. apply fact_inj in Hc.
  assert (HF : pf_F3_prop n r (Z.of_nat c1) <-> pf_F3_prop n r (Z.of_nat c2)).
  { destruct Hc as [->|[Ha Hb]]; [tauto|].
    split; intros H; apply pf_F3_prop_large in H; lia. }
  destruct H1 as [[Ht ->]|[(Hnt & Hf & ->)|(Hnt & Hnf & ->)]];
    destruct H2 as [[Ht' ->]|[(Hnt' & Hf' & ->)|(Hnt' & Hnf' & ->)]];
    tauto.
Qed.

Lemma bf_class_of_agree n r cls1 cls2 :
  bf_class_of n r cls1 -> bf_class_of n r cls2 -> cls1 = cls2.
Proof.
  intros [[Ht ->]|[Hnt ->]] [[Ht' ->]|[Hnt' ->]]; tauto.
Qed.

Lemma pf_emits_agree it f3 n r v new1 new2 :
  pf_emits it f3 n r v new1 -> pf_emits it f3 n r v new2 ->
  Forall2 pf_agree new1 new2.
Proof.
  intros [[Hn1 ->]|(c1 & cls1 & Hc1 & Hk1 & ->)]
         [[Hn2 ->]|(c2 & cls2 & Hc2 & Hk2 & ->)].
  - constructor.
  - exfalso. apply Hn1. now exists c2.
  - exfalso. apply Hn2. now exists c1.
  - assert (Hc : fact c1 = fact c2) by congruence.
    rewrite (pf_class_of_agree n r c1 c2 cls1 cls2 Hc Hk1 Hk2).
    destruct (pf_keep it f3 cls2); constructor; [|constructor].
    unfold pf_agree; cbn. apply fact_inj in Hc. repeat split; auto. lia.
Qed.

Lemma bf_emits_agree it n r v new1 new2 :
  bf_emits it n r v new1 -> bf_emits it n r v new2 ->
  Forall2 bf_agree new1 new2.
Proof.
  intros [[Hn1 ->]|(c1 & cls1 & Hc1 & Hk1 & ->)]
         [[Hn2 ->]|(c2 & cls2 & Hc2 & Hk2 & ->)].
  - constructor.
  - exfalso. apply Hn1. now exists c2.
  - exfalso. apply Hn2. now exists c1.
  - assert (Hc : fact c1 = fact c2) by congruence.
    rewrite (bf_class_of_agree n r cls1 cls2 Hk1 Hk2).
    destruct (bf_keep it cls2); constructor; [|constructor].
    unfold bf_agree; cbn. apply fact_inj in Hc. repeat split; auto. lia.
Qed.

(** C5, amended: two runs with the same arguments return the same list when
    they start from the same table; started from different tables they
    return lists of the same length whose records agree one by one on n, r
    and class, and on c except that a matched value of 1 may be recorded
    with index 0 in one run and 1 in the other. *)
Theorem search_runs_agree (fuel : nat) (n_max : Z) (it f3 : bool) (T1 T2 : table) :
  wf_table T1 -> wf_table T2 -> n_max <= Z.of_nat fuel ->
  (exists o1 o2 T1' T2',
      search_pf fuel n_max it f3 T1 = Some (o1, T1')
      /\ search_pf fuel n_max it f3 T2 = Some (o2, T2')
      /\ Forall2 pf_agree o1 o2
      /\ (T1 = T2 -> o1 = o2))
  /\ (exists o1 o2 T1' T2',
        search_bf fuel n_max it T1 = Some (o1, T1')
        /\ search_bf fuel n_max it T2 = Some (o2, T2')
        /\ Forall2 bf_agree o1 o2
        /\ (T1 = T2 -> o1 = o2)).
Proof.
  intros H1 H2 Hn. split.
  - destruct (search_pf_wf fuel n_max it f3 T1 Hn H1) as (o1 & T1' & E1 & _ & Ho1).
    destruct (search_pf_wf fuel n_max it f3 T2 Hn H2) as (o2 & T2' & E2 & _ & Ho2).
    exists o1, o2, T1', T2'. repeat split; auto.
    + eapply chunks_Forall2; [|exact Ho1|exact Ho2].
      intros n r1 r2 _. unfold pf_row. apply chunks_Forall2.
      intros r a b _. apply pf_emits_agree.
    + intros ->. congruence.
  - destruct (search_bf_wf fuel n_max it T1 Hn H1) as (o1 & T1' & E1 & _ & Ho1).
    destruct (search_bf_wf fuel n_max it T2 Hn H2) as (o2 & T2' & E2 & _ & Ho2).
    exists o1, o2, T1', T2'. repeat split; auto.
    + eapply chunks_Forall2; [|exact Ho1|exact Ho2].
      intros n r1 r2 _. unfold bf_row. apply chunks_Forall2.
      intros r a b _. apply bf_emits_agree.
    + intros ->. congruence.
Qed.

Lemma search_runs_agree_witness :
  (exists o1 o2 T1' T2',
      search_pf 4 4 true true facts0 = Some (o1, T1')
      /\ search_pf 4 4 true true [1; 1; 2] = Some (o2, T2')
      /\ Forall2 pf_agree o1 o2
      /\ (facts0 = [1; 1; 2] -> o1 = o2))
  /\ (exists o1 o2 T1' T2',
        search_bf 4 4 true facts0 = Some (o1, T1')
        /\ search_bf 4 4 true [1; 1; 2] = Some (o2, T2')
        /\ Forall2 bf_agree o1 o2
        /\ (facts0 = [1; 1; 2] -> o1 = o2)).
Proof.
  apply (search_runs_agree 4 4 true true facts0 [1; 1; 2]).
  - exists 2%nat. split; [lia|reflexivity].
  - exists 3%nat. split; [lia|reflexivity].
  - vm_compute. discriminate.
Defined.

(** ** Claims about known solutions *)

(** C6: for every [n_max >= 6], with [include_pf_f3] set, the list returned
    by [search_pf] contains the record (6, 3, 5) tagged PF_F3. *)
Theorem search_pf_finds_6_3_5 (fuel : nat) (n_max : Z) (it : bool) (T : table) :
  wf_table T -> 6 <= n_max -> n_max <= Z.of_nat fuel ->
  exists out T',
    search_pf fuel n_max it true T = Some (out, T')
    /\ In (mkPF 6 3 5 "PF_F3") out.
Proof.
  intros HT H6 Hn.
  destruct (search_pf_wf fuel n_max it true T Hn HT) as (out & T' & E & _ & Hout).
  exists out, T'. split; [exact E|].
  apply (chunks_In (pf_row it true) (py_range 0 (n_max + 1)) out 6);
    [apply py_range_0_In; lia| |exact Hout].
  intros row. unfold pf_row.
  apply (chunks_In _ (py_range 0 (6 + 1)) row 3); [apply py_range_0_In; lia|].
  change (falling 6 (Z.to_nat 3)) with (fact 5).
  intros new [[Hno _]|(c & cls & Hc & Hcls & ->)].
  - exfalso. apply Hno. now exists 5%nat.
  - apply fact_inj in Hc. assert (c = 5%nat) by lia. subst c.
    assert (Hnt : ~ pf_trivial_prop 6 3)
      by (intros [H|[H|[H|[H _]]]]; discriminate H).
    assert (Hf : pf_F3_prop 6 3 (Z.of_nat 5)).
    { exists 3%nat. repeat split; try lia; reflexivity. }
    destruct Hcls as [[Ht _]|[(_ & _ & ->)|(_ & Hnf & _)]]; try contradiction.
    destruct it; now left.
Qed.

Lemma search_pf_finds_6_3_5_witness :
  exists out T',
    search_pf 7 7 false true facts0 = Some (out, T')
    /\ In (mkPF 6 3 5 "PF_F3") out.
Proof.
  apply (search_pf_finds_6_3_5 7 7 false facts0).
  - exists 2%nat. split; [lia|reflexivity].
  - vm_compute. discriminate.
  - vm_compute. discriminate.
Defined.

(** C10: for every [n_max >= 4], with [include_trivial] set, the list
    returned by [search_bf] contains the record (4, 2, 3) tagged exceptional,
    so the exceptional branch of the BF search is reachable. *)
Theorem search_bf_finds_4_2_3 (fuel : nat) (n_max : Z) (T : table) :
  wf_table T -> 4 <= n_max -> n_max <= Z.of_nat fuel ->
  exists out T',
    search_bf fuel n_max true T = Some (out, T')
    /\ In (mkBF 4 2 3 "exceptional") out.
Proof.
  intros HT H4 Hn.
  destruct (search_bf_wf fuel n_max true T Hn HT) as (out & T' & E & _ & Hout).
  exists out, T'. split; [exact E|].
  apply (chunks_In (bf_row true) (py_range 0 (n_max + 1)) out 4);
    [apply py_range_0_In; lia| |exact Hout].
  intros row. unfold bf_row.
  apply (chunks_In _ (py_range 0 (4 + 1)) row 2); [apply py_range_0_In; lia|].
  change (binom (Z.to_nat 4) (Z.to_nat 2)) with (fact 3).
  intros new [[Hno _]|(c & cls & Hc & Hcls & ->)].
  - exfalso. apply Hno. now exists 3%nat.
  - apply fact_inj in Hc. assert (c = 3%nat) by lia. subst c.
    assert (Hnt : ~ bf_trivial_prop 4 2)
      by (intros [H|[H|[[H|H] _]]]; discriminate H).
    destruct Hcls as [[Ht _]|[_ ->]]; [contradiction|]. now left.
Qed.

Lemma search_bf_finds_4_2_3_witness :
  exists out T',
    search_bf 5 5 true facts0 = Some (out, T')
    /\ In (mkBF 4 2 3 "exceptional") out.
Proof.
  apply (search_bf_finds_4_2_3 5 5 facts0).
  - exists 2%nat. split; [lia|reflexivity].
  - vm_compute. discriminate.
  - vm_compute. discriminate.
Defined.

(** ** Claim about output order *)

(** C9: the lists returned by [search_pf] and [search_bf] are strictly
    increasing in the lexicographic order on (n, r): every record precedes
    all later ones, so n never decreases along the list and r strictly
    increases among the records of one n. *)
Theorem search_output_ordered (fuel : nat) (n_max : Z) (it f3 : bool) (T : table) :
  wf_table T -> n_max <= Z.of_nat fuel ->
  (exists out T',
      search_pf fuel n_max it f3 T = Some (out, T') /\ StronglySorted pf_lex out)
  /\ (exists out T',
        search_bf fuel n_max it T = Some (out, T') /\ StronglySorted bf_lex out).
Proof.
  intros HT Hn. split.
  - destruct (search_pf_wf fuel n_max it f3 T Hn HT) as (out & T' & E & _ & Hout).
    exists out, T'. split; [exact E|]. eapply pf_out_sorted; exact Hout.
  - destruct (search_bf_wf fuel n_max it T Hn HT) as (out & T' & E & _ & Hout).
    exists out, T'. split; [exact E|]. eapply bf_out_sorted; exact Hout.
Qed.

Lemma search_output_ordered_witness :
  (exists out T',
      search_pf 6 6 true true facts0 = Some (out, T') /\ StronglySorted pf_lex out)
  /\ (exists out T',
        search_bf 6 6 true facts0 = Some (out, T') /\ StronglySorted bf_lex out).
Proof.
  apply (search_output_ordered 6 6 true true facts0).
  - exists 2%nat. split; [lia|reflexivity].
  - vm_compute. discriminate.
Defined.

(** ** Claim about flag suppression *)

(** Two loops whose bodies commute with a projection [g] of the loop state
    commute with it as a whole, failures included. *)
Lemma for_each_project {A S} (g : S -> S) (b1 b2 : A -> S -> M S) xs :
  (forall x s T,
      b1 x (g s) T = option_map (fun '(s', T') => (g s', T')) (b2 x s T)) ->
  forall s T,
    for_each xs b1 (g s) T
    = option_map (fun '(s', T') => (g s', T')) (for_each xs b2 s T).
Proof.
  intros Hb. induction xs as [|x xs IH]; intros s T; [reflexivity|].
  cbn [for_each]. unfold bind. rewrite Hb.
  destruct (b2 x s T) as [[s' T']|]; cbn [option_map]; [apply IH|reflexivity].
Qed.

Lemma pf_body_suppress fuel f3 n r s T :
  pf_body fuel false f3 n r (fst s, filter pf_not_trivial (snd s)) T
  = option_map (fun '(s', T') => ((fst s', filter pf_not_trivial (snd s')), T'))
               (pf_body fuel true f3 n r s T).
Proof.
  destruct s as [prod out]. cbn [fst snd]. unfold pf_body, bind.
  destruct (is_factorial fuel _ T) as [[[ok c] T1]|]; [|reflexivity].
  destruct ok; [|reflexivity]. destruct c as [c|]; [|reflexivity].
  destruct (is_pf_trivial fuel n r c T1) as [[[|] T2]|]; [| |reflexivity].
  - cbn. now rewrite filter_app, app_nil_r.
  - destruct (is_pf_F3 fuel n r c T2) as [[[|] T3]|]; [| |reflexivity].
    + destruct f3; cbn; [|reflexivity]. now rewrite filter_app.
    + cbn. now rewrite filter_app.
Qed.

Lemma bf_body_suppress fuel n r out T :
  bf_body fuel false n r (filter bf_not_trivial out) T
  = option_map (fun '(out', T') => (filter bf_not_trivial out', T'))
               (bf_body fuel true n r out T).
Proof.
  unfold bf_body, bind.
  destruct (lift_opt (comb n r) T) as [[val T0]|]; [|reflexivity].
  destruct (is_factorial fuel val T0) as [[[ok c] T1]|]; [|reflexivity].
  destruct ok; [|reflexivity]. destruct c as [c|]; [|reflexivity].
  destruct (is_bf_trivial fuel n r c T1) as [[[|] T2]|]; [| |reflexivity].
  - cbn. now rewrite filter_app, app_nil_r.
  - cbn. now rewrite filter_app.
Qed.

Lemma search_pf_suppress fuel n_max f3 T :
  search_pf fuel n_max false f3 T
  = option_map (fun '(out, T') => (filter pf_not_trivial out, T'))
               (search_pf fuel n_max true f3 T).
Proof.
  unfold search_pf.
  refine (for_each_project (filter pf_not_trivial)
            (fun n out => '(_, out') <- for_each (py_range 0 (n + 1))
                                         (pf_body fuel false f3 n) (1, out) ;;
                          ret out')
            (fun n out => '(_, out') <- for_each (py_range 0 (n + 1))
                                         (pf_body fuel true f3 n) (1, out) ;;
                          ret out')
            (py_range 0 (n_max + 1)) _ [] T).
  intros n out T0. unfold bind.
  pose proof (for_each_project
                (fun s : Z * list PFRecord => (fst s, filter pf_not_trivial (snd s)))
                (pf_body fuel false f3 n) (pf_body fuel true f3 n)
                (py_range 0 (n + 1))
                (fun r s T1 => pf_body_suppress fuel f3 n r s T1) (1, out) T0) as H.
  cbn [fst snd] in H. rewrite H.
  destruct (for_each (py_range 0 (n + 1)) (pf_body fuel true f3 n) (1, out) T0)
    as [[[p o] T1]|]; reflexivity.
Qed.

Lemma search_bf_suppress fuel n_max T :
  search_bf fuel n_max false T
  = option_map (fun '(out, T') => (filter bf_not_trivial out, T'))
               (search_bf fuel n_max true T).
Proof.
  unfold search_bf.
  refine (for_each_project (filter bf_not_trivial)
            (fun n out => for_each (py_range 0 (n + 1)) (bf_body fuel false n) out)
            (fun n out => for_each (py_range 0 (n + 1)) (bf_body fuel true n) out)
            (py_range 0 (n_max + 1)) _ [] T).
  intros n out T0.
  apply (for_each_project (filter bf_not_trivial)
           (bf_body fuel false n) (bf_body fuel true n)).
  intros r o T1. apply bf_body_suppress.
Qed.

(** C7: for every [n_max] and flag setting, both runs return, and the list
    [search_pf] returns with [include_trivial] unset is the list it returns
    with [include_trivial] set with exactly the records tagged trivial
    removed, the others unchanged and in the same order; likewise for
    [search_bf].  Both runs leave the same table behind. *)
Theorem search_trivial_suppression (fuel : nat) (n_max : Z) (f3 : bool) (T : table) :
  wf_table T -> n_max <= Z.of_nat fuel ->
  (exists out T',
      search_pf fuel n_max true f3 T = Some (out, T')
      /\ search_pf fuel n_max false f3 T = Some (filter pf_not_trivial out, T'))
  /\ (exists out T',
        search_bf fuel n_max true T = Some (out, T')
        /\ search_bf fuel n_max false T = Some (filter bf_not_trivial out, T')).
Proof.
  intros HT Hn. split.
  - destruct (search_pf_wf fuel n_max true f3 T Hn HT) as (out & T' & E & _).
    exists out, T'. split; [exact E|].
    now rewrite search_pf_suppress, E.
  - destruct (search_bf_wf fuel n_max true T Hn HT) as (out & T' & E & _).
    exists out, T'. split; [exact E|].
    now rewrite search_bf_suppress, E.
Qed.

Lemma search_trivial_suppression_witness :
  (exists out T',
      search_pf 6 6 true true facts0 = Some (out, T')
      /\ search_pf 6 6 false true facts0 = Some (filter pf_not_trivial out, T'))
  /\ (exists out T',
        search_bf 6 6 true facts0 = Some (out, T')
        /\ search_bf 6 6 false facts0 = Some (filter bf_not_trivial out, T')).
Proof.
  apply (search_trivial_suppression 6 6 true facts0).
  - exists 2%nat. split; [lia|reflexivity].
  - vm_compute. discriminate.
Defined.

(** * Further properties of the code *)

(** ** The factorial index on arbitrary tables *)

Lemma py_get_last_app T v : py_get (T ++ [v]) (-1) = Some v.
Proof.
  unfold py_get. change (-1 <? 0) with true. cbv iota.
  rewrite length_app, Nat.add_comm. cbn [length Nat.add].
  destruct (Z.ltb_spec (Z.of_nat (S (length T)) + -1) 0); [lia|].
  replace (Z.to_nat (Z.of_nat (S (length T)) + -1)) with (length T) by lia.
  rewrite nth_error_app2 by lia. now rewrite Nat.sub_diag.
Qed.

Lemma py_get_last_nth T v :
  py_get T (-1) = Some v ->
  (0 < length T)%nat /\ nth_error T (length T - 1) = Some v.
Proof.
  unfold py_get. change (-1 <? 0) with true. cbv iota.
  destruct (Z.ltb_spec (Z.of_nat (length T) + -1) 0) as [Hneg|Hpos];
    [discriminate|].
  replace (Z.to_nat (Z.of_nat (length T) + -1)) with (length T - 1)%nat by lia.
  intros Hnth. split; [lia|exact Hnth].
Qed.

Lemma extend_loop_post f x T T' :
  extend_loop f x T = Some T' ->
  (exists suf, T' = T ++ suf)
  /\ (exists v, py_get T' (-1) = Some v /\ x <= v)
  /\ (forall v, py_get T (-1) = Some v -> x <= v -> T' = T)
  /\ (forall i v, (length T - 1 <= i < length T' - 1)%nat ->
        nth_error T' i = Some v -> v < x).
Proof.
  revert T. induction f as [|f IH]; intros T H; rewrite extend_loop_eq in H;
    destruct (py_get T (-1)) as [v|] eqn:Hv; try discriminate;
    destruct (Z.ltb_spec v x) as [Hlt|Hge]; try discriminate.
  - injection H as <-. repeat split.
    + exists []. now rewrite app_nil_r.
    + now exists v.
    + intros i w Hi. lia.
  - destruct (IH _ H) as ((suf & ->) & Hlast & _ & Hmin). repeat split.
    + exists ((v * Z.of_nat (length T)) :: suf). now rewrite <- app_assoc.
    + exact Hlast.
    + intros v0 E Hx. injection E as <-. lia.
    + intros i w Hi Hw.
      destruct (py_get_last_nth T v Hv) as [Hpos Hnth].
      destruct (Nat.eq_dec i (length T - 1)) as [->|Hne].
      * rewrite <- app_assoc, nth_error_app1 in Hw by lia. congruence.
      * apply (Hmin i w); [|exact Hw].
        rewrite !length_app in Hi. rewrite !length_app. cbn [length] in *. lia.
  - injection H as <-. repeat split.
    + exists []. now rewrite app_nil_r.
    + now exists v.
    + intros i w Hi. lia.
Qed.

(** X1: on any table whatsoever, when an extension call returns it has only
    appended entries, the last entry is then at least the bound, a table
    whose last entry already reaches the bound is returned untouched, and the
    loop stops as early as it can: from the old last entry up to the entry
    before the new last one, every entry is below the bound. *)
Theorem extend_postcondition (fuel : nat) (x : Z) (T T' : table) :
  extend_factorials_until_ge fuel x T = Some (tt, T') ->
  (exists suf, T' = T ++ suf)
  /\ (exists v, py_get T' (-1) = Some v /\ x <= v)
  /\ (forall v, py_get T (-1) = Some v -> x <= v -> T' = T)
  /\ (forall i v, (length T - 1 <= i < length T' - 1)%nat ->
        nth_error T' i = Some v -> v < x).
Proof.
  unfold extend_factorials_until_ge. intros H.
  destruct (extend_loop fuel x T) as [T1|] eqn:E; [|discriminate].
  cbn in H. injection H as <-. eapply extend_loop_post; exact E.
Qed.

Lemma extend_postcondition_witness :
  (exists suf, [3; 3; 6; 18] = [3; 3] ++ suf)
  /\ (exists v, py_get [3; 3; 6; 18] (-1) = Some v /\ 10 <= v)
  /\ (forall v, py_get [3; 3] (-1) = Some v -> 10 <= v -> [3; 3; 6; 18] = [3; 3])
  /\ (forall i v, (length [3; 3] - 1 <= i < length [3; 3; 6; 18] - 1)%nat ->
        nth_error [3; 3; 6; 18] i = Some v -> v < 10).
Proof.
  apply (extend_postcondition 5 10 [3; 3] [3; 3; 6; 18]). reflexivity.
Defined.

(** The binary search on any table: it never raises, and a reported index is
    in range and holds the value searched for. *)
Lemma bsearch_any T x lo hi :
  0 <= lo -> hi < Z.of_nat (length T) ->
  bsearch T x lo hi = Some (false, None)
  \/ exists m, bsearch T x lo hi = Some (true, Some m)
               /\ lo <= m <= hi /\ py_get T m = Some x.
Proof.
  funelim (bsearch T x lo hi); intros Hlo Hhi;
    try match goal with Hle : lo <= hi |- _ =>
          pose proof (mid_bounds lo hi Hle) as Hm end.
  - now left.
  - exfalso.
    match goal with Hg : py_get _ _ = None |- _ =>
      rewrite py_get_nonneg in Hg by lia; apply nth_error_None in Hg end.
    lia.
  - right. exists ((lo + hi) / 2). subst. auto.
  - match goal with IH : 0 <= _ -> _ |- _ =>
      destruct (IH ltac:(lia) Hhi) as [E|(m & E & Hr & Hg)] end.
    + now left.
    + right. exists m. repeat split; auto; lia.
  - match goal with IH : 0 <= _ -> _ |- _ =>
      destruct (IH Hlo ltac:(lia)) as [E|(m & E & Hr & Hg)] end.
    + now left.
    + right. exists m. repeat split; auto; lia.
Qed.

(** X2: on any table whatsoever, sorted or not, [factorial_index_of] fails
    only when the extension loop does; otherwise it answers either
    (False, None) or (True, k) with [k] a valid index of the table it leaves
    behind, holding exactly [x]; it never reports a value that is not in the
    table, and never an index without the found flag. *)
Theorem factorial_index_of_any_table (fuel : nat) (x : Z) (T : table) :
  match factorial_index_of fuel x T with
  | None => 1 <= x /\ extend_loop fuel x T = None
  | Some ((false, None), T') =>
      (x < 1 /\ T' = T) \/ (1 <= x /\ extend_loop fuel x T = Some T')
  | Some ((true, Some k), T') =>
      1 <= x /\ 0 <= k < Z.of_nat (length T')
      /\ nth_error T' (Z.to_nat k) = Some x
      /\ extend_loop fuel x T = Some T'
  | Some (_, _) => False
  end.
Proof.
  unfold factorial_index_of.
  destruct (Z.ltb_spec x 1) as [Hlt|Hge]; [cbn; auto|].
  unfold bind, extend_factorials_until_ge.
  destruct (extend_loop fuel x T) as [T1|] eqn:E; cbn [option_map]; [|auto].
  destruct (extend_loop_post _ _ _ _ E) as (_ & (v & Hv & _) & _ & _).
  assert (Hlen : (0 < length T1)%nat).
  { destruct T1; [discriminate Hv|cbn; lia]. }
  destruct (bsearch_any T1 x 0 (Z.of_nat (length T1) - 1) ltac:(lia) ltac:(lia))
    as [Eb|(m & Eb & Hr & Hg)]; rewrite Eb; cbn [option_map].
  - now right.
  - rewrite py_get_nonneg in Hg by lia. repeat split; auto; lia.
Qed.

(** ** Everything is append-only *)

Lemma appends_ret {A} (a : A) : appends (ret a).
Proof. intros T b T' H. injection H as _ <-. exists []. now rewrite app_nil_r. Qed.

Lemma appends_bind {A B} (m : M A) (f : A -> M B) :
  appends m -> (forall a, appends (f a)) -> appends (bind m f).
Proof.
  intros Hm Hf T b T' H. unfold bind in H.
  destruct (m T) as [[a T1]|] eqn:E; [|discriminate].
  destruct (Hm _ _ _ E) as [s1 ->]. destruct (Hf a _ _ _ H) as [s2 ->].
  exists (s1 ++ s2). now rewrite app_assoc.
Qed.

Lemma appends_for_each {A S} (body : A -> S -> M S) xs :
  (forall x s, appends (body x s)) -> forall s, appends (for_each xs body s).
Proof.
  intros Hb. induction xs as [|x xs IH]; intros s; cbn [for_each].
  - apply appends_ret.
  - apply appends_bind; [apply Hb|exact IH].
Qed.

Lemma appends_factorial_index_of fuel x : appends (factorial_index_of fuel x).
Proof.
  intros T res T' H.
  pose proof (factorial_index_of_any_table fuel x T) as P. rewrite H in P.
  destruct res as [[|] [k|]]; try contradiction.
  - destruct P as (_ & _ & _ & E). eapply extend_loop_post; exact E.
  - destruct P as [[_ ->]|[_ E]].
    + exists []. now rewrite app_nil_r.
    + eapply extend_loop_post; exact E.
Qed.

Lemma appends_is_pf_trivial fuel n r c : appends (is_pf_trivial fuel n r c).
Proof.
  unfold is_pf_trivial.
  destruct ((r =? 0) || (r =? n - 1) || (r =? n))%bool; [apply appends_ret|].
  destruct (r =? 1); [|apply appends_ret].
  apply appends_bind; [apply appends_factorial_index_of|].
  intros [[|] o]; apply appends_ret.
Qed.

Lemma appends_is_pf_F3 fuel n r c : appends (is_pf_F3 fuel n r c).
Proof.
  unfold is_pf_F3.
  apply appends_bind; [apply appends_factorial_index_of|].
  intros [[|] [t|]]; try apply appends_ret.
  destruct (t <? 3); apply appends_ret.
Qed.

Lemma appends_is_bf_trivial fuel n r c : appends (is_bf_trivial fuel n r c).
Proof.
  unfold is_bf_trivial.
  destruct ((r =? 0) || (r =? n))%bool; [apply appends_ret|].
  destruct ((r =? 1) || (r =? n - 1))%bool; [|apply appends_ret].
  apply appends_bind; [apply appends_factorial_index_of|].
  intros [[|] o]; apply appends_ret.
Qed.

Lemma appends_pf_body fuel it f3 n r s : appends (pf_body fuel it f3 n r s).
Proof.
  destruct s as [prod out]. unfold pf_body.
  apply appends_bind; [apply appends_factorial_index_of|].
  intros [[|] [c|]]; try apply appends_ret.
  apply appends_bind; [apply appends_is_pf_trivial|].
  intros [|]; [apply appends_ret|].
  apply appends_bind; [apply appends_is_pf_F3|].
  intros [|]; apply appends_ret.
Qed.

Lemma appends_bf_body fuel it n r out : appends (bf_body fuel it n r out).
Proof.
  unfold bf_body. apply appends_bind.
  - intros T a T' H. unfold lift_opt in H.
    destruct (comb n r); [|discriminate]. injection H as _ <-.
    exists []. now rewrite app_nil_r.
  - intros val. apply appends_bind; [apply appends_factorial_index_of|].
    intros [[|] [c|]]; try apply appends_ret.
    apply appends_bind; [apply appends_is_bf_trivial|].
    intros [|]; apply appends_ret.
Qed.

(** X3: on any table whatsoever, a search that returns has only appended to
    the factorial table: every entry present before the call is still there,
    at the same index, afterwards.  The same holds for the three
    classifiers. *)
Theorem searches_append_only (fuel : nat) (n_max n r c : Z) (it f3 : bool) :
  appends (search_pf fuel n_max it f3)
  /\ appends (search_bf fuel n_max it)
  /\ appends (is_pf_trivial fuel n r c)
  /\ appends (is_pf_F3 fuel n r c)
  /\ appends (is_bf_trivial fuel n r c).
Proof.
  split; [|split; [|split; [|split]]].
  - unfold search_pf. apply appends_for_each. intros m out.
    apply appends_bind.
    + apply appends_for_each. intros k s. apply appends_pf_body.
    + intros [p o]. apply appends_ret.
  - unfold search_bf. apply appends_for_each. intros m out.
    apply appends_for_each. intros k s. apply appends_bf_body.
  - apply appends_is_pf_trivial.
  - apply appends_is_pf_F3.
  - apply appends_is_bf_trivial.
Qed.

(** ** The classifiers *)

(** X4: on every table the program can hold, [is_pf_trivial] answers True
    exactly when r is 0, n - 1 or n, or r is 1 and n is a factorial; the
    answer depends neither on c nor on the table, and the table stays
    well-formed. *)
Theorem is_pf_trivial_correct (fuel : nat) (n r c : Z) (T : table) :
  wf_table T -> n <= fact fuel ->
  exists b T',
    is_pf_trivial fuel n r c T = Some (b, T') /\ wf_table T'
    /\ (b = true <-> r = 0 \/ r = n - 1 \/ r = n \/ (r = 1 /\ is_fact n)).
Proof. intros HT Hn. exact (is_pf_trivial_wf fuel n r c T HT Hn). Qed.

Lemma is_pf_trivial_correct_witness :
  exists b T',
    is_pf_trivial 3 6 1 3 facts0 = Some (b, T') /\ wf_table T'
    /\ (b = true <-> 1 = 0 \/ 1 = 6 - 1 \/ 1 = 6 \/ (1 = 1 /\ is_fact 6)).
Proof.
  apply (is_pf_trivial_correct 3 6 1 3 facts0).
  - exists 2%nat. split; [lia|reflexivity].
  - vm_compute. discriminate.
Defined.

(** X5: on every table the program can hold, [is_pf_F3] answers True exactly
    when n = t! for some t >= 3, r = n - t and c = n - 1. *)
Theorem is_pf_F3_correct (fuel : nat) (n r c : Z) (T : table) :
  wf_table T -> n <= fact fuel ->
  exists b T',
    is_pf_F3 fuel n r c T = Some (b, T') /\ wf_table T'
    /\ (b = true <->
        exists t : nat, (3 <= t)%nat /\ fact t = n
                        /\ r = n - Z.of_nat t /\ c = n - 1).
Proof. intros HT Hn. exact (is_pf_F3_wf fuel n r c T HT Hn). Qed.

Lemma is_pf_F3_correct_witness :
  exists b T',
    is_pf_F3 4 24 20 23 facts0 = Some (b, T') /\ wf_table T'
    /\ (b = true <->
        exists t : nat, (3 <= t)%nat /\ fact t = 24
                        /\ 20 = 24 - Z.of_nat t /\ 23 = 24 - 1).
Proof.
  apply (is_pf_F3_correct 4 24 20 23 facts0).
  - exists 2%nat. split; [lia|reflexivity].
  - vm_compute. discriminate.
Defined.

(** X6: on every table the program can hold, [is_bf_trivial] answers True
    exactly when r is 0 or n, or r is 1 or n - 1 and n is a factorial. *)
Theorem is_bf_trivial_correct (fuel : nat) (n r c : Z) (T : table) :
  wf_table T -> n <= fact fuel ->
  exists b T',
    is_bf_trivial fuel n r c T = Some (b, T') /\ wf_table T'
    /\ (b = true <-> r = 0 \/ r = n \/ ((r = 1 \/ r = n - 1) /\ is_fact n)).
Proof. intros HT Hn. exact (is_bf_trivial_wf fuel n r c T HT Hn). Qed.

Lemma is_bf_trivial_correct_witness :
  exists b T',
    is_bf_trivial 3 6 5 3 facts0 = Some (b, T') /\ wf_table T'
    /\ (b = true <-> 5 = 0 \/ 5 = 6 \/ ((5 = 1 \/ 5 = 6 - 1) /\ is_fact 6)).
Proof.
  apply (is_bf_trivial_correct 3 6 5 3 facts0).
  - exists 2%nat. split; [lia|reflexivity].
  - vm_compute. discriminate.
Defined.

(** ** Soundness of the searches *)

Lemma binom_gt n k : (n < k)%nat -> binom n k = 0.
Proof.
  revert k. induction n as [|n IH]; intros k Hk.
  - destruct k; [lia|reflexivity].
  - destruct k as [|k]; [lia|]. cbn [binom].
    rewrite (IH k), (IH (S k)) by lia. reflexivity.
Qed.

Lemma binom_diag n : binom n n = 1.
Proof.
  induction n as [|n IH]; [reflexivity|].
  cbn [binom]. rewrite IH, (binom_gt n (S n)) by lia. reflexivity.
Qed.

(** [binom] is the binomial coefficient: C(n, k) k! (n-k)! = n!. *)
Lemma binom_fact n k :
  (k <= n)%nat -> binom n k * fact k * fact (n - k) = fact n.
Proof.
  revert k. induction n as [|n IH]; intros k Hk.
  - assert (k = 0%nat) by lia. subst k. reflexivity.
  - destruct k as [|k].
    + cbn [binom]. rewrite Nat.sub_0_r. change (fact 0) with 1. lia.
    + cbn [binom]. replace (S n - S k)%nat with (n - k)%nat by lia.
      destruct (Nat.eq_dec k n) as [->|Hne].
      * rewrite binom_diag, (binom_gt n (S n)) by lia.
        rewrite Nat.sub_diag. change (fact 0) with 1. lia.
      * pose proof (IH k ltac:(lia)) as H1.
        pose proof (IH (S k) ltac:(lia)) as H2.
        replace (n - k)%nat with (S (n - S k)) in * by lia.
        rewrite (fact_S n). rewrite (fact_S k) in *.
        rewrite (fact_S (n - S k)) in *.
        replace (Z.of_nat (S n)) with (Z.of_nat (S k) + Z.of_nat (S (n - S k))) by lia.
        nia.
Qed.

(** X7: every record [search_pf] returns is a genuine solution with the right
    tag: 0 <= r <= n <= n_max, c >= 0, c! (n-r)! = n! (that is, nPr = c!),
    the tag is the one the mathematical patterns dictate, and no record of a
    class excluded by the flags is returned. *)
Theorem search_pf_sound (fuel : nat) (n_max : Z) (it f3 : bool) (T : table) :
  wf_table T -> n_max <= Z.of_nat fuel ->
  exists out T',
    search_pf fuel n_max it f3 T = Some (out, T') /\ wf_table T'
    /\ Forall (fun rec =>
                 0 <= pf_r rec <= pf_n rec /\ pf_n rec <= n_max /\ 0 <= pf_c rec
                 /\ fact (Z.to_nat (pf_c rec))
                    * fact (Z.to_nat (pf_n rec) - Z.to_nat (pf_r rec))
                    = fact (Z.to_nat (pf_n rec))
                 /\ pf_class_of (pf_n rec) (pf_r rec) (pf_c rec) (pf_cls rec)
                 /\ pf_keep it f3 (pf_cls rec) = true) out.
Proof.
  intros HT Hn.
  destruct (search_pf_wf fuel n_max it f3 T Hn HT) as (out & T' & E & HT' & Hout).
  exists out, T'. split; [exact E|]. split; [exact HT'|].
  eapply pf_out_Forall; [|exact Hout].
  intros n r c cls Hr Hnm Hc Hcls Hk. cbn [pf_n pf_r pf_c pf_cls].
  repeat split; auto; try lia.
  rewrite Nat2Z.id, Hc.
  replace n with (Z.of_nat (Z.to_nat n)) at 1 by lia.
  apply falling_fact. lia.
Qed.

Lemma search_pf_sound_witness :
  exists out T',
    search_pf 6 6 true true facts0 = Some (out, T') /\ wf_table T'
    /\ Forall (fun rec =>
                 0 <= pf_r rec <= pf_n rec /\ pf_n rec <= 6 /\ 0 <= pf_c rec
                 /\ fact (Z.to_nat (pf_c rec))
                    * fact (Z.to_nat (pf_n rec) - Z.to_nat (pf_r rec))
                    = fact (Z.to_nat (pf_n rec))
                 /\ pf_class_of (pf_n rec) (pf_r rec) (pf_c rec) (pf_cls rec)
                 /\ pf_keep true true (pf_cls rec) = true) out.
Proof.
  apply (search_pf_sound 6 6 true true facts0).
  - exists 2%nat. split; [lia|reflexivity].
  - vm_compute. discriminate.
Defined.

(** X8: every record [search_bf] returns is a genuine solution with the right
    tag: 0 <= r <= n <= n_max, c >= 0, c! r! (n-r)! = n! (that is,
    C(n, r) = c!), the tag is the one the mathematical pattern dictates, and
    no trivial record is returned when they are excluded. *)
Theorem search_bf_sound (fuel : nat) (n_max : Z) (it : bool) (T : table) :
  wf_table T -> n_max <= Z.of_nat fuel ->
  exists out T',
    search_bf fuel n_max it T = Some (out, T') /\ wf_table T'
    /\ Forall (fun rec =>
                 0 <= bf_r rec <= bf_n rec /\ bf_n rec <= n_max /\ 0 <= bf_c rec
                 /\ fact (Z.to_nat (bf_c rec)) * fact (Z.to_nat (bf_r rec))
                    * fact (Z.to_nat (bf_n rec) - Z.to_nat (bf_r rec))
                    = fact (Z.to_nat (bf_n rec))
                 /\ bf_class_of (bf_n rec) (bf_r rec) (bf_cls rec)
                 /\ bf_keep it (bf_cls rec) = true) out.
Proof.
  intros HT Hn.
  destruct (search_bf_wf fuel n_max it T Hn HT) as (out & T' & E & HT' & Hout).
  exists out, T'. split; [exact E|]. split; [exact HT'|].
  eapply bf_out_Forall; [|exact Hout].
  intros n r c cls Hr Hnm Hc Hcls Hk. cbn [bf_n bf_r bf_c bf_cls].
  repeat split; auto; try lia.
  rewrite Nat2Z.id, Hc. apply binom_fact. lia.
Qed.

Lemma search_bf_sound_witness :
  exists out T',
    search_bf 6 6 true facts0 = Some (out, T') /\ wf_table T'
    /\ Forall (fun rec =>
                 0 <= bf_r rec <= bf_n rec /\ bf_n rec <= 6 /\ 0 <= bf_c rec
                 /\ fact (Z.to_nat (bf_c rec)) * fact (Z.to_nat (bf_r rec))
                    * fact (Z.to_nat (bf_n rec) - Z.to_nat (bf_r rec))
                    = fact (Z.to_nat (bf_n rec))
                 /\ bf_class_of (bf_n rec) (bf_r rec) (bf_cls rec)
                 /\ bf_keep true (bf_cls rec) = true) out.
Proof.
  apply (search_bf_sound 6 6 true facts0).
  - exists 2%nat. split; [lia|reflexivity].
  - vm_compute. discriminate.
Defined.

(** ** Completeness of the searches *)

Lemma chunks_ex {A R} (P : A -> list R -> Prop) (Q : R -> Prop) xs out x :
  In x xs -> (forall new, P x new -> exists rec, In rec new /\ Q rec) ->
  chunks P xs out -> exists rec, In rec out /\ Q rec.
Proof.
  intros Hin HP Hc. induction Hc as [|y ys new rest Hy Hc IH]; [contradiction|].
  destruct Hin as [->|Hin].
  - destruct (HP new Hy) as (rec & Hr & Hq). exists rec. split; [|exact Hq].
    apply in_or_app. now left.
  - destruct (IH Hin) as (rec & Hr & Hq). exists rec. split; [|exact Hq].
    apply in_or_app. now right.
Qed.

Lemma pf_keep_all cls : pf_keep true true cls = true.
Proof.
  unfold pf_keep.
  destruct (String.eqb cls "trivial"); [reflexivity|].
  destruct (String.eqb cls "PF_F3"); reflexivity.
Qed.

Lemma bf_keep_all cls : bf_keep true cls = true.
Proof. unfold bf_keep. destruct (String.eqb cls "trivial"); reflexivity. Qed.

(** What row [n], iteration [r] contributes to a PF output. *)
Lemma pf_out_at it f3 n_max out (n r : nat) (Q : PFRecord -> Prop) :
  (r <= n)%nat -> Z.of_nat n <= n_max ->
  (forall new, pf_emits it f3 (Z.of_nat n) (Z.of_nat r)
                        (falling (Z.of_nat n) r) new ->
               exists rec, In rec new /\ Q rec) ->
  pf_out it f3 n_max out -> exists rec, In rec out /\ Q rec.
Proof.
  intros Hr Hn HQ Hout.
  apply (chunks_ex (pf_row it f3) Q (py_range 0 (n_max + 1)) out (Z.of_nat n));
    [apply py_range_0_In; lia| |exact Hout].
  intros row. unfold pf_row.
  apply (chunks_ex _ Q (py_range 0 (Z.of_nat n + 1)) row (Z.of_nat r));
    [apply py_range_0_In; lia|].
  rewrite Nat2Z.id. exact HQ.
Qed.

Lemma bf_out_at it n_max out (n r : nat) (Q : BFRecord -> Prop) :
  (r <= n)%nat -> Z.of_nat n <= n_max ->
  (forall new, bf_emits it (Z.of_nat n) (Z.of_nat r) (binom n r) new ->
               exists rec, In rec new /\ Q rec) ->
  bf_out it n_max out -> exists rec, In rec out /\ Q rec.
Proof.
  intros Hr Hn HQ Hout.
  apply (chunks_ex (bf_row it) Q (py_range 0 (n_max + 1)) out (Z.of_nat n));
    [apply py_range_0_In; lia| |exact Hout].
  intros row. unfold bf_row.
  apply (chunks_ex _ Q (py_range 0 (Z.of_nat n + 1)) row (Z.of_nat r));
    [apply py_range_0_In; lia|].
  rewrite !Nat2Z.id. exact HQ.
Qed.

(** X9: with both flags set, [search_pf] misses no solution: whenever
    0 <= r <= n <= n_max and c! (n-r)! = n! for some c, the list returned
    contains a record for (n, r), whose index has the same factorial as c
    (so it is c itself unless the value is 1). *)
Theorem search_pf_complete (fuel : nat) (n_max : Z) (T : table) (n r c : nat) :
  wf_table T -> n_max <= Z.of_nat fuel ->
  (r <= n)%nat -> Z.of_nat n <= n_max ->
  fact c * fact (n - r) = fact n ->
  exists out T',
    search_pf fuel n_max true true T = Some (out, T')
    /\ exists (c' : nat) cls,
         In (mkPF (Z.of_nat n) (Z.of_nat r) (Z.of_nat c') cls) out
         /\ fact c' = fact c.
Proof.
  intros HT Hfuel Hr Hn Hsol.
  destruct (search_pf_wf fuel n_max true true T Hfuel HT) as (out & T' & E & _ & Hout).
  exists out, T'. split; [exact E|].
  assert (Hv : falling (Z.of_nat n) r = fact c).
  { pose proof (falling_fact n r Hr) as Hf. pose proof (fact_pos (n - r)). nia. }
  destruct (pf_out_at true true n_max out n r
              (fun rec => exists (c' : nat) cls,
                   rec = mkPF (Z.of_nat n) (Z.of_nat r) (Z.of_nat c') cls
                   /\ fact c' = fact c) Hr Hn) as (rec & Hin & c' & cls & -> & Hc');
    [|exact Hout|now exists c', cls].
  intros new [[Hno _]|(c' & cls & Hc' & _ & ->)].
  - exfalso. apply Hno. exists c. now rewrite Hv.
  - rewrite pf_keep_all. eexists. split; [now left|].
    exists c', cls. split; [reflexivity|congruence].
Qed.

Lemma search_pf_complete_witness :
  exists out T',
    search_pf 10 10 true true facts0 = Some (out, T')
    /\ exists (c' : nat) cls,
         In (mkPF (Z.of_nat 10) (Z.of_nat 3) (Z.of_nat c') cls) out
         /\ fact c' = fact 6.
Proof.
  apply (search_pf_complete 10 10 facts0 10 3 6).
  - exists 2%nat. split; [lia|reflexivity].
  - vm_compute. discriminate.
  - lia.
  - vm_compute. discriminate.
  - reflexivity.
Defined.

(** X10: with [include_trivial] set, [search_bf] misses no solution: whenever
    0 <= r <= n <= n_max and c! r! (n-r)! = n! for some c, the list returned
    contains a record for (n, r), whose index has the same factorial as c. *)
Theorem search_bf_complete (fuel : nat) (n_max : Z) (T : table) (n r c : nat) :
  wf_table T -> n_max <= Z.of_nat fuel ->
  (r <= n)%nat -> Z.of_nat n <= n_max ->
  fact c * fact r * fact (n - r) = fact n ->
  exists out T',
    search_bf fuel n_max true T = Some (out, T')
    /\ exists (c' : nat) cls,
         In (mkBF (Z.of_nat n) (Z.of_nat r) (Z.of_nat c') cls) out
         /\ fact c' = fact c.
Proof.
  intros HT Hfuel Hr Hn Hsol.
  destruct (search_bf_wf fuel n_max true T Hfuel HT) as (out & T' & E & _ & Hout).
  exists out, T'. split; [exact E|].
  assert (Hv : binom n r = fact c).
  { pose proof (binom_fact n r Hr) as Hf.
    pose proof (fact_pos (n - r)). pose proof (fact_pos r).
    apply Z.mul_reg_r with (fact r * fact (n - r)); [nia|].
    rewrite !Z.mul_assoc. congruence. }
  destruct (bf_out_at true n_max out n r
              (fun rec => exists (c' : nat) cls,
                   rec = mkBF (Z.of_nat n) (Z.of_nat r) (Z.of_nat c') cls
                   /\ fact c' = fact c) Hr Hn) as (rec & Hin & c' & cls & -> & Hc');
    [|exact Hout|now exists c', cls].
  intros new [[Hno _]|(c' & cls & Hc' & _ & ->)].
  - exfalso. apply Hno. exists c. now rewrite Hv.
  - rewrite bf_keep_all. eexists. split; [now left|].
    exists c', cls. split; [reflexivity|congruence].
Qed.

Lemma search_bf_complete_witness :
  exists out T',
    search_bf 10 10 true facts0 = Some (out, T')
    /\ exists (c' : nat) cls,
         In (mkBF (Z.of_nat 10) (Z.of_nat 3) (Z.of_nat c') cls) out
         /\ fact c' = fact 5.
Proof.
  apply (search_bf_complete 10 10 facts0 10 3 5).
  - exists 2%nat. split; [lia|reflexivity].
  - vm_compute. discriminate.
  - lia.
  - vm_compute. discriminate.
  - reflexivity.
Defined.

(** ** The known families are found *)

Lemma fact_plus3 t : (3 <= t)%nat -> Z.of_nat t + 3 <= fact t.
Proof.
  induction 1 as [|t Ht IH]; [cbv; discriminate|].
  rewrite fact_S. nia.
Qed.

Lemma pf_emits_trivial f3 n r (k : nat) new :
  pf_trivial_prop n r -> pf_emits true f3 n r (fact k) new ->
  exists c' : nat, fact c' = fact k /\ new = [mkPF n r (Z.of_nat c') "trivial"].
Proof.
  intros Ht [[Hno _]|(c' & cls & Hc' & Hcls & ->)].
  - exfalso. apply Hno. now exists k.
  - exists c'. split; [exact Hc'|].
    destruct Hcls as [[_ ->]|[(Hnt & _)|(Hnt & _)]]; [reflexivity|contradiction..].
Qed.

Lemma bf_emits_trivial n r (k : nat) new :
  bf_trivial_prop n r -> bf_emits true n r (fact k) new ->
  exists c' : nat, fact c' = fact k /\ new = [mkBF n r (Z.of_nat c') "trivial"].
Proof.
  intros Ht [[Hno _]|(c' & cls & Hc' & Hcls & ->)].
  - exfalso. apply Hno. now exists k.
  - exists c'. split; [exact Hc'|].
    destruct Hcls as [[_ ->]|[Hnt _]]; [reflexivity|contradiction].
Qed.

Lemma falling_full n : falling (Z.of_nat n) n = fact n.
Proof.
  pose proof (falling_fact n n (Nat.le_refl n)) as H.
  rewrite Nat.sub_diag in H. change (fact 0) with 1 in H. lia.
Qed.

Lemma falling_but_one n : (1 <= n)%nat -> falling (Z.of_nat n) (n - 1) = fact n.
Proof.
  intros Hn. pose proof (falling_fact n (n - 1) ltac:(lia)) as H.
  replace (n - (n - 1))%nat with 1%nat in H by lia.
  change (fact 1) with 1 in H. lia.
Qed.

(** X11: the whole PF_F3 family is found: for every t >= 3 with
    t! <= n_max, and with [include_pf_f3] set, the list [search_pf] returns
    contains the record (t!, t! - t, t! - 1) tagged PF_F3. *)
Theorem search_pf_finds_family (fuel : nat) (n_max : Z) (it : bool) (T : table)
    (t : nat) :
  wf_table T -> n_max <= Z.of_nat fuel ->
  (3 <= t)%nat -> fact t <= n_max ->
  exists out T',
    search_pf fuel n_max it true T = Some (out, T')
    /\ In (mkPF (fact t) (fact t - Z.of_nat t) (fact t - 1) "PF_F3") out.
Proof.
  intros HT Hfuel Ht Hn.
  destruct (search_pf_wf fuel n_max it true T Hfuel HT) as (out & T' & E & _ & Hout).
  exists out, T'. split; [exact E|].
  pose proof (fact_plus3 t Ht) as Hbig.
  set (nn := Z.to_nat (fact t)).
  assert (Hnn : Z.of_nat nn = fact t) by (unfold nn; lia).
  assert (Hv : falling (Z.of_nat nn) (nn - t) = fact (nn - 1)).
  { pose proof (falling_fact nn (nn - t) ltac:(lia)) as Hf.
    replace (nn - (nn - t))%nat with t in Hf by lia.
    replace nn with (S (nn - 1)) in Hf at 3 by lia.
    rewrite fact_S in Hf. replace (S (nn - 1)) with nn in Hf by lia.
    rewrite <- Hnn in Hf.
    apply Z.mul_reg_r with (Z.of_nat nn); [lia|]. lia. }
  destruct (pf_out_at it true n_max out nn (nn - t)
              (fun rec => rec = mkPF (fact t) (fact t - Z.of_nat t) (fact t - 1) "PF_F3")
              ltac:(lia) ltac:(lia)) as (rec & Hin & ->); [|exact Hout|exact Hin].
  rewrite Hv.
  intros new [[Hno _]|(c' & cls & Hc' & Hcls & ->)].
  - exfalso. apply Hno. now exists (nn - 1)%nat.
  - apply fact_inj in Hc'. assert (c' = (nn - 1)%nat) by lia. subst c'.
    assert (Hnt : ~ pf_trivial_prop (Z.of_nat nn) (Z.of_nat (nn - t)))
      by (intros [H|[H|[H|[H _]]]]; lia).
    assert (HF : pf_F3_prop (Z.of_nat nn) (Z.of_nat (nn - t)) (Z.of_nat (nn - 1))).
    { exists t. repeat split; auto; lia. }
    destruct Hcls as [[Htr _]|[(_ & _ & ->)|(_ & Hnf & _)]]; try contradiction.
    replace (pf_keep it true "PF_F3") with true by (destruct it; reflexivity).
    eexists. split; [now left|]. f_equal; lia.
Qed.

Lemma search_pf_finds_family_witness :
  exists out T',
    search_pf 24 24 true true facts0 = Some (out, T')
    /\ In (mkPF (fact 4) (fact 4 - Z.of_nat 4) (fact 4 - 1) "PF_F3") out.
Proof.
  apply (search_pf_finds_family 24 24 true facts0 4).
  - exists 2%nat. split; [lia|reflexivity].
  - vm_compute. discriminate.
  - lia.
  - vm_compute. discriminate.
Defined.

(** X12: the boundary solutions are always reported by [search_pf] when
    [include_trivial] is set: for every 0 <= n <= n_max the list contains
    (n, 0, c) tagged trivial with c = 0 or c = 1, and for n >= 2 also
    (n, n - 1, n) and (n, n, n) tagged trivial. *)
Theorem search_pf_finds_boundary (fuel : nat) (n_max : Z) (f3 : bool) (T : table)
    (n : nat) :
  wf_table T -> n_max <= Z.of_nat fuel -> Z.of_nat n <= n_max ->
  exists out T',
    search_pf fuel n_max true f3 T = Some (out, T')
    /\ (exists c, (c = 0 \/ c = 1) /\ In (mkPF (Z.of_nat n) 0 c "trivial") out)
    /\ ((2 <= n)%nat ->
        In (mkPF (Z.of_nat n) (Z.of_nat n - 1) (Z.of_nat n) "trivial") out
        /\ In (mkPF (Z.of_nat n) (Z.of_nat n) (Z.of_nat n) "trivial") out).
Proof.
  intros HT Hfuel Hn.
  destruct (search_pf_wf fuel n_max true f3 T Hfuel HT) as (out & T' & E & _ & Hout).
  exists out, T'. split; [exact E|]. split; [|intros H2; split].
  - destruct (pf_out_at true f3 n_max out n 0
                (fun rec => exists c, (c = 0 \/ c = 1)
                                      /\ rec = mkPF (Z.of_nat n) 0 c "trivial")
                ltac:(lia) Hn) as (rec & Hin & c & Hc & ->);
      [|exact Hout|now exists c].
    change (falling (Z.of_nat n) 0) with (fact 0).
    intros new Hnew.
    destruct (pf_emits_trivial f3 (Z.of_nat n) (Z.of_nat 0) 0 new
                (or_introl eq_refl) Hnew) as (c' & Hc' & ->).
    apply fact_inj in Hc'. eexists. split; [now left|].
    exists (Z.of_nat c'). split; [lia|reflexivity].
  - destruct (pf_out_at true f3 n_max out n (n - 1)
                (fun rec => rec = mkPF (Z.of_nat n) (Z.of_nat n - 1) (Z.of_nat n) "trivial")
                ltac:(lia) Hn) as (rec & Hin & ->); [|exact Hout|exact Hin].
    rewrite falling_but_one by lia. intros new Hnew.
    destruct (pf_emits_trivial f3 (Z.of_nat n) (Z.of_nat (n - 1)) n new)
      as (c' & Hc' & ->); [|exact Hnew|].
    { right; left. lia. }
    apply fact_inj in Hc'. eexists. split; [now left|]. f_equal; lia.
  - destruct (pf_out_at true f3 n_max out n n
                (fun rec => rec = mkPF (Z.of_nat n) (Z.of_nat n) (Z.of_nat n) "trivial")
                ltac:(lia) Hn) as (rec & Hin & ->); [|exact Hout|exact Hin].
    rewrite falling_full. intros new Hnew.
    destruct (pf_emits_trivial f3 (Z.of_nat n) (Z.of_nat n) n new)
      as (c' & Hc' & ->); [|exact Hnew|].
    { right; right; left. reflexivity. }
    apply fact_inj in Hc'. eexists. split; [now left|]. f_equal; lia.
Qed.

Lemma search_pf_finds_boundary_witness :
  exists out T',
    search_pf 5 5 true false facts0 = Some (out, T')
    /\ (exists c, (c = 0 \/ c = 1) /\ In (mkPF (Z.of_nat 4) 0 c "trivial") out)
    /\ ((2 <= 4)%nat ->
        In (mkPF (Z.of_nat 4) (Z.of_nat 4 - 1) (Z.of_nat 4) "trivial") out
        /\ In (mkPF (Z.of_nat 4) (Z.of_nat 4) (Z.of_nat 4) "trivial") out).
Proof.
  apply (search_pf_finds_boundary 5 5 false facts0 4).
  - exists 2%nat. split; [lia|reflexivity].
  - vm_compute. discriminate.
  - vm_compute. discriminate.
Defined.

Lemma binom_one n : binom n 1 = Z.of_nat n.
Proof.
  induction n as [|n IH]; [reflexivity|].
  cbn [binom]. rewrite IH. destruct n; cbn [binom]; lia.
Qed.

Lemma binom_but_one n : (1 <= n)%nat -> binom n (n - 1) = Z.of_nat n.
Proof.
  intros Hn. pose proof (binom_fact n (n - 1) ltac:(lia)) as H.
  replace (n - (n - 1))%nat with 1%nat in H by lia.
  change (fact 1) with 1 in H.
  replace n with (S (n - 1)) in H at 4 by lia.
  rewrite fact_S in H. replace (S (n - 1)) with n in H by lia.
  pose proof (fact_pos (n - 1)).
  rewrite Z.mul_1_r in H.
  apply Z.mul_reg_r with (fact (n - 1)); [lia|exact H].
Qed.

(** X13: the boundary solutions are always reported by [search_bf] when
    [include_trivial] is set: for every 0 <= n <= n_max the list contains
    (n, 0, c) and (n, n, c') tagged trivial with c, c' in {0, 1}, and when
    n = t! with t >= 2 also (n, 1, t) and (n, n - 1, t) tagged trivial. *)
Theorem search_bf_finds_boundary (fuel : nat) (n_max : Z) (T : table) (n : nat) :
  wf_table T -> n_max <= Z.of_nat fuel -> Z.of_nat n <= n_max ->
  exists out T',
    search_bf fuel n_max true T = Some (out, T')
    /\ (exists c, (c = 0 \/ c = 1) /\ In (mkBF (Z.of_nat n) 0 c "trivial") out)
    /\ (exists c, (c = 0 \/ c = 1)
                  /\ In (mkBF (Z.of_nat n) (Z.of_nat n) c "trivial") out)
    /\ (forall t : nat, (2 <= t)%nat -> fact t = Z.of_nat n ->
          In (mkBF (Z.of_nat n) 1 (Z.of_nat t) "trivial") out
          /\ In (mkBF (Z.of_nat n) (Z.of_nat n - 1) (Z.of_nat t) "trivial") out).
Proof.
  intros HT Hfuel Hn.
  destruct (search_bf_wf fuel n_max true T Hfuel HT) as (out & T' & E & _ & Hout).
  exists out, T'. split; [exact E|]. split; [|split; [|intros t Ht Hf; split]].
  - destruct (bf_out_at true n_max out n 0
                (fun rec => exists c, (c = 0 \/ c = 1)
                                      /\ rec = mkBF (Z.of_nat n) 0 c "trivial")
                ltac:(lia) Hn) as (rec & Hin & c & Hc & ->);
      [|exact Hout|now exists c].
    replace (binom n 0) with (fact 0) by (destruct n; reflexivity).
    intros new Hnew.
    destruct (bf_emits_trivial (Z.of_nat n) (Z.of_nat 0) 0 new
                (or_introl eq_refl) Hnew) as (c' & Hc' & ->).
    apply fact_inj in Hc'. eexists. split; [now left|].
    exists (Z.of_nat c'). split; [lia|reflexivity].
  - destruct (bf_out_at true n_max out n n
                (fun rec => exists c, (c = 0 \/ c = 1)
                                      /\ rec = mkBF (Z.of_nat n) (Z.of_nat n) c "trivial")
                ltac:(lia) Hn) as (rec & Hin & c & Hc & ->);
      [|exact Hout|now exists c].
    replace (binom n n) with (fact 0) by (now rewrite binom_diag).
    intros new Hnew.
    destruct (bf_emits_trivial (Z.of_nat n) (Z.of_nat n) 0 new) as (c' & Hc' & ->);
      [|exact Hnew|].
    { right; left. reflexivity. }
    apply fact_inj in Hc'. eexists. split; [now left|].
    exists (Z.of_nat c'). split; [lia|reflexivity].
  - pose proof (fact_mono 2 t Ht) as H2. change (fact 2) with 2 in H2.
    destruct (bf_out_at true n_max out n 1
                (fun rec => rec = mkBF (Z.of_nat n) 1 (Z.of_nat t) "trivial")
                ltac:(lia) Hn) as (rec & Hin & ->); [|exact Hout|exact Hin].
    replace (binom n 1) with (fact t) by (rewrite binom_one; congruence).
    intros new Hnew.
    destruct (bf_emits_trivial (Z.of_nat n) (Z.of_nat 1) t new) as (c' & Hc' & ->);
      [|exact Hnew|].
    { right; right. split; [now left|now exists t]. }
    apply fact_inj in Hc'. eexists. split; [now left|]. f_equal; lia.
  - pose proof (fact_mono 2 t Ht) as H2. change (fact 2) with 2 in H2.
    destruct (bf_out_at true n_max out n (n - 1)
                (fun rec => rec = mkBF (Z.of_nat n) (Z.of_nat n - 1) (Z.of_nat t) "trivial")
                ltac:(lia) Hn) as (rec & Hin & ->); [|exact Hout|exact Hin].
    replace (binom n (n - 1)) with (fact t)
      by (rewrite binom_but_one by lia; congruence).
    intros new Hnew.
    destruct (bf_emits_trivial (Z.of_nat n) (Z.of_nat (n - 1)) t new)
      as (c' & Hc' & ->); [|exact Hnew|].
    { right; right. split; [right; lia|now exists t]. }
    apply fact_inj in Hc'. eexists. split; [now left|]. f_equal; lia.
Qed.

Lemma search_bf_finds_boundary_witness :
  exists out T',
    search_bf 7 7 true facts0 = Some (out, T')
    /\ (exists c, (c = 0 \/ c = 1) /\ In (mkBF (Z.of_nat 6) 0 c "trivial") out)
    /\ (exists c, (c = 0 \/ c = 1)
                  /\ In (mkBF (Z.of_nat 6) (Z.of_nat 6) c "trivial") out)
    /\ (forall t : nat, (2 <= t)%nat -> fact t = Z.of_nat 6 ->
          In (mkBF (Z.of_nat 6) 1 (Z.of_nat t) "trivial") out
          /\ In (mkBF (Z.of_nat 6) (Z.of_nat 6 - 1) (Z.of_nat t) "trivial") out).
Proof.
  apply (search_bf_finds_boundary 7 7 facts0 6).
  - exists 2%nat. split; [lia|reflexivity].
  - vm_compute. discriminate.
  - vm_compute. discriminate.
Defined.

(** ** How the bound and the flags shape the output *)

Lemma for_each_app {A S} (body : A -> S -> M S) xs ys s T :
  for_each (xs ++ ys) body s T
  = match for_each xs body s T with
    | Some (s', T') => for_each ys body s' T'
    | None => None
    end.
Proof.
  revert s T. induction xs as [|x xs IH]; intros s T; [reflexivity|].
  cbn [app for_each]. unfold bind.
  destruct (body x s T) as [[s1 T1]|]; [apply IH|reflexivity].
Qed.

Lemma range_split n1 n2 :
  n1 <= n2 ->
  exists a k,
    Z.to_nat (n1 + 1) = a /\ Z.to_nat (n2 + 1) = (a + k)%nat
    /\ n1 < Z.of_nat a
    /\ py_range 0 (n2 + 1) = py_range 0 (n1 + 1) ++ map Z.of_nat (seq a k).
Proof.
  intros H. exists (Z.to_nat (n1 + 1)), (Z.to_nat (n2 + 1) - Z.to_nat (n1 + 1))%nat.
  split; [reflexivity|]. split; [lia|]. split; [lia|].
  rewrite !py_range_0, <- map_app. f_equal.
  replace (Z.to_nat (n2 + 1))
    with (Z.to_nat (n1 + 1) + (Z.to_nat (n2 + 1) - Z.to_nat (n1 + 1)))%nat at 1 by lia.
  now rewrite seq_app.
Qed.

Lemma chunks_seq_Forall {R} (P : Z -> list R -> Prop) (key : R -> Z) a k out :
  (forall n row, P n row -> Forall (fun rec => key rec = n) row) ->
  chunks P (map Z.of_nat (seq a k)) out ->
  Forall (fun rec => Z.of_nat a <= key rec) out.
Proof.
  intros HP Hc. eapply chunks_Forall; [|exact Hc].
  intros n row Hin Hrow. apply in_map_iff in Hin. destruct Hin as (i & <- & Hi).
  apply in_seq in Hi. eapply Forall_impl; [|exact (HP _ _ Hrow)].
  intros rec Hrec. cbn in Hrec. lia.
Qed.

(** X14: raising the bound only adds records at the end: for n1 <= n2 the
    list returned for n2 is the list returned for n1 followed by records
    whose n is above n1; for [search_pf] and [search_bf], from the same
    table. *)
Theorem search_output_grows (fuel : nat) (n1 n2 : Z) (it f3 : bool) (T : table) :
  wf_table T -> n1 <= n2 -> n2 <= Z.of_nat fuel ->
  (exists o1 T1 suf T2,
      search_pf fuel n1 it f3 T = Some (o1, T1)
      /\ search_pf fuel n2 it f3 T = Some (o1 ++ suf, T2)
      /\ Forall (fun rec => n1 < pf_n rec) suf)
  /\ (exists o1 T1 suf T2,
        search_bf fuel n1 it T = Some (o1, T1)
        /\ search_bf fuel n2 it T = Some (o1 ++ suf, T2)
        /\ Forall (fun rec => n1 < bf_n rec) suf).
Proof.
  intros HT H12 Hfuel.
  destruct (range_split n1 n2 H12) as (a & k & Ha & Hak & Hlt & Hsplit).
  split.
  - destruct (search_pf_wf fuel n1 it f3 T ltac:(lia) HT) as (o1 & T1 & E1 & HT1 & _).
    destruct (pf_outer_wf fuel it f3 k a o1 T1 ltac:(lia) HT1)
      as (suf & T2 & E2 & _ & Hsuf).
    exists o1, T1, suf, T2. split; [exact E1|]. split.
    + unfold search_pf in *. rewrite Hsplit, for_each_app, E1. exact E2.
    + eapply Forall_impl;
        [|apply (chunks_seq_Forall (pf_row it f3) pf_n a k suf); [|exact Hsuf]].
      * intros rec Hrec. cbn in Hrec. lia.
      * intros n row Hrow. exact (proj1 (pf_row_keys it f3 n row Hrow)).
  - destruct (search_bf_wf fuel n1 it T ltac:(lia) HT) as (o1 & T1 & E1 & HT1 & _).
    destruct (bf_outer_wf fuel it k a o1 T1 ltac:(lia) HT1)
      as (suf & T2 & E2 & _ & Hsuf).
    exists o1, T1, suf, T2. split; [exact E1|]. split.
    + unfold search_bf in *. rewrite Hsplit, for_each_app, E1. exact E2.
    + eapply Forall_impl;
        [|apply (chunks_seq_Forall (bf_row it) bf_n a k suf); [|exact Hsuf]].
      * intros rec Hrec. cbn in Hrec. lia.
      * intros n row Hrow. exact (proj1 (bf_row_keys it n row Hrow)).
Qed.

Lemma search_output_grows_witness :
  (exists o1 T1 suf T2,
      search_pf 6 3 true true facts0 = Some (o1, T1)
      /\ search_pf 6 6 true true facts0 = Some (o1 ++ suf, T2)
      /\ Forall (fun rec => 3 < pf_n rec) suf)
  /\ (exists o1 T1 suf T2,
        search_bf 6 3 true facts0 = Some (o1, T1)
        /\ search_bf 6 6 true facts0 = Some (o1 ++ suf, T2)
        /\ Forall (fun rec => 3 < bf_n rec) suf).
Proof.
  apply (search_output_grows 6 3 6 true true facts0).
  - exists 2%nat. split; [lia|reflexivity].
  - vm_compute. discriminate.
  - vm_compute. discriminate.
Defined.

(** X15: a negative bound is not an error: on any table and with any flags
    both searches return the empty list and leave the table untouched. *)
Theorem search_negative_bound_empty (fuel : nat) (n_max : Z) (it f3 : bool)
    (T : table) :
  n_max < 0 ->
  search_pf fuel n_max it f3 T = Some ([], T)
  /\ search_bf fuel n_max it T = Some ([], T).
Proof.
  intros H. unfold search_pf, search_bf. rewrite py_range_0.
  replace (Z.to_nat (n_max + 1)) with 0%nat by lia. split; reflexivity.
Qed.

Lemma search_negative_bound_empty_witness :
  search_pf 0 (-3) true false [5; 0] = Some ([], [5; 0])
  /\ search_bf 0 (-3) true [5; 0] = Some ([], [5; 0]).
Proof. apply (search_negative_bound_empty 0 (-3) true false [5; 0]). lia. Defined.

Lemma pf_body_suppress_f3 fuel it n r s T :
  pf_body fuel it false n r (fst s, filter pf_not_F3 (snd s)) T
  = option_map (fun '(s', T') => ((fst s', filter pf_not_F3 (snd s')), T'))
               (pf_body fuel it true n r s T).
Proof.
  destruct s as [prod out]. cbn [fst snd]. unfold pf_body, bind.
  destruct (is_factorial fuel _ T) as [[[ok c] T1]|]; [|reflexivity].
  destruct ok; [|reflexivity]. destruct c as [c|]; [|reflexivity].
  destruct (is_pf_trivial fuel n r c T1) as [[[|] T2]|]; [| |reflexivity].
  - destruct it; cbn; [|reflexivity]. now rewrite filter_app.
  - destruct (is_pf_F3 fuel n r c T2) as [[[|] T3]|]; [| |reflexivity].
    + cbn. now rewrite filter_app, app_nil_r.
    + cbn. now rewrite filter_app.
Qed.

Lemma search_pf_suppress_f3 fuel n_max it T :
  search_pf fuel n_max it false T
  = option_map (fun '(out, T') => (filter pf_not_F3 out, T'))
               (search_pf fuel n_max it true T).
Proof.
  unfold search_pf.
  refine (for_each_project (filter pf_not_F3)
            (fun n out => '(_, out') <- for_each (py_range 0 (n + 1))
                                         (pf_body fuel it false n) (1, out) ;;
                          ret out')
            (fun n out => '(_, out') <- for_each (py_range 0 (n + 1))
                                         (pf_body fuel it true n) (1, out) ;;
                          ret out')
            (py_range 0 (n_max + 1)) _ [] T).
  intros n out T0. unfold bind.
  pose proof (for_each_project
                (fun s : Z * list PFRecord => (fst s, filter pf_not_F3 (snd s)))
                (pf_body fuel it false n) (pf_body fuel it true n)
                (py_range 0 (n + 1))
                (fun r s T1 => pf_body_suppress_f3 fuel it n r s T1) (1, out) T0) as H.
  cbn [fst snd] in H. rewrite H.
  destruct (for_each (py_range 0 (n + 1)) (pf_body fuel it true n) (1, out) T0)
    as [[[p o] T1]|]; reflexivity.
Qed.

(** X16: [include_pf_f3] only filters: the list [search_pf] returns with the
    flag unset is the list it returns with the flag set with exactly the
    records tagged PF_F3 removed, the others unchanged and in order, and the
    table left behind is the same; in particular a suppressed PF_F3 solution
    is never re-reported as exceptional. *)
Theorem search_f3_suppression (fuel : nat) (n_max : Z) (it : bool) (T : table) :
  wf_table T -> n_max <= Z.of_nat fuel ->
  exists out T',
    search_pf fuel n_max it true T = Some (out, T')
    /\ search_pf fuel n_max it false T = Some (filter pf_not_F3 out, T').
Proof.
  intros HT Hn.
  destruct (search_pf_wf fuel n_max it true T Hn HT) as (out & T' & E & _).
  exists out, T'. split; [exact E|].
  now rewrite search_pf_suppress_f3, E.
Qed.

Lemma search_f3_suppression_witness :
  exists out T',
    search_pf 6 6 true true facts0 = Some (out, T')
    /\ search_pf 6 6 true false facts0 = Some (filter pf_not_F3 out, T').
Proof.
  apply (search_f3_suppression 6 6 true facts0).
  - exists 2%nat. split; [lia|reflexivity].
  - vm_compute. discriminate.
Defined.

(** ** The searches as [main] runs them *)

Lemma bf_out_agree it n_max o1 o2 :
  bf_out it n_max o1 -> bf_out it n_max o2 -> Forall2 bf_agree o1 o2.
Proof.
  intros H1 H2. eapply chunks_Forall2; [|exact H1|exact H2].
  intros n r1 r2 _. unfold bf_row. apply chunks_Forall2.
  intros r a b _. apply bf_emits_agree.
Qed.

(** X17: in a fresh process, mode [both] hands the PF writer exactly the rows
    mode [pf] does, but runs the BF search on the table the PF search left
    behind: the BF rows agree with those of mode [bf] record by record on n,
    r and class, and on c up to the tie between the indices 0 and 1. *)
Theorem main_both_vs_single (fuel : nat) (nmax : Z) (no_trivial no_pf_f3 : bool) :
  nmax <= Z.of_nat fuel ->
  exists pf bf_both bf_alone Tboth Tpf Tbf,
    main_searches fuel ModeBoth nmax no_trivial no_pf_f3 facts0
    = Some ((Some pf, Some bf_both), Tboth)
    /\ main_searches fuel ModePF nmax no_trivial no_pf_f3 facts0
       = Some ((Some pf, None), Tpf)
    /\ main_searches fuel ModeBF nmax no_trivial no_pf_f3 facts0
       = Some ((None, Some bf_alone), Tbf)
    /\ Forall2 bf_agree bf_both bf_alone.
Proof.
  intros Hn.
  destruct (search_pf_wf fuel nmax (negb no_trivial) (negb no_pf_f3) facts0 Hn facts0_wf)
    as (pf & Tpf & Epf & HTpf & _).
  destruct (search_bf_wf fuel nmax (negb no_trivial) Tpf Hn HTpf)
    as (bfb & Tboth & Ebb & _ & Hbb).
  destruct (search_bf_wf fuel nmax (negb no_trivial) facts0 Hn facts0_wf)
    as (bfa & Tbf & Eba & _ & Hba).
  exists pf, bfb, bfa, Tboth, Tpf, Tbf.
  unfold main_searches, bind, ret. rewrite Epf, Ebb, Eba.
  repeat split; auto. eapply bf_out_agree; eassumption.
Qed.

Lemma main_both_vs_single_witness :
  exists pf bf_both bf_alone Tboth Tpf Tbf,
    main_searches 5 ModeBoth 5 false false facts0
    = Some ((Some pf, Some bf_both), Tboth)
    /\ main_searches 5 ModePF 5 false false facts0
       = Some ((Some pf, None), Tpf)
    /\ main_searches 5 ModeBF 5 false false facts0
       = Some ((None, Some bf_alone), Tbf)
    /\ Forall2 bf_agree bf_both bf_alone.
Proof.
  apply (main_both_vs_single 5 5 false false).
  vm_compute. discriminate.
Defined.

(** ** How far the table grows *)



















(** ** The two PF patterns never overlap *)

(** X18: on tables the program can hold, [is_pf_trivial] and [is_pf_F3] never
    both answer True for the same triple, so the order in which [search_pf]
    tests them never decides a tag. *)
Theorem pf_patterns_disjoint (fuel : nat) (n r c : Z) (T1 T2 : table) :
  wf_table T1 -> wf_table T2 -> n <= fact fuel ->
  exists bt bf T1' T2',
    is_pf_trivial fuel n r c T1 = Some (bt, T1')
    /\ is_pf_F3 fuel n r c T2 = Some (bf, T2')
    /\ (bt && bf)%bool = false.
Proof.
  intros H1 H2 Hn.
  destruct (is_pf_trivial_wf fuel n r c T1 H1 Hn) as (bt & Ta & Ea & _ & Hbt).
  destruct (is_pf_F3_wf fuel n r c T2 H2 Hn) as (bf & Tb & Eb & _ & Hbf).
  exists bt, bf, Ta, Tb. split; [exact Ea|]. split; [exact Eb|].
  destruct bt; [|reflexivity]. destruct bf; [|reflexivity]. exfalso.
  destruct (proj1 Hbf eq_refl) as (t & Ht & Hf & Hr & Hc).
  pose proof (fact_plus3 t Ht) as Hbig.
  destruct (proj1 Hbt eq_refl) as [H|[H|[H|[H _]]]]; lia.
Qed.

Lemma pf_patterns_disjoint_witness :
  exists bt bf T1' T2',
    is_pf_trivial 3 6 3 5 facts0 = Some (bt, T1')
    /\ is_pf_F3 3 6 3 5 [1; 1; 2] = Some (bf, T2')
    /\ (bt && bf)%bool = false.
Proof.
  apply (pf_patterns_disjoint 3 6 3 5 facts0 [1; 1; 2]).
  - exists 2%nat. split; [lia|reflexivity].
  - exists 3%nat. split; [lia|reflexivity].
  - vm_compute. discriminate.
Defined.

(** ** Classification of every factorial match *)

Lemma chunks_In_inv {A R} (P : A -> list R -> Prop) xs out rec :
  chunks P xs out -> In rec out ->
  exists x new, In x xs /\ P x new /\ In rec new.
Proof.
  intros Hc. induction Hc as [|x xs new rest Hx Hc IH]; intros Hin; [contradiction|].
  apply in_app_or in Hin. destruct Hin as [Hin|Hin].
  - exists x, new. repeat split; auto. now left.
  - destruct (IH Hin) as (y & ny & Hy & Hp & Hr).
    exists y, ny. repeat split; auto. now right.
Qed.

(** A record of a PF output was emitted by the iteration its (n, r) names. *)
Lemma pf_out_In_inv it f3 n_max out rec :
  pf_out it f3 n_max out -> In rec out ->
  exists new,
    pf_emits it f3 (pf_n rec) (pf_r rec)
             (falling (pf_n rec) (Z.to_nat (pf_r rec))) new
    /\ In rec new.
Proof.
  intros Hout Hin.
  destruct (chunks_In_inv _ _ _ _ Hout Hin) as (n & row & _ & Hrow & Hinr).
  pose proof (proj1 (pf_row_keys it f3 n row Hrow)) as Hk.
  rewrite Forall_forall in Hk. pose proof (Hk rec Hinr) as Hn.
  destruct (chunks_In_inv _ _ _ _ Hrow Hinr) as (r & new & _ & Hnew & Hinn).
  pose proof (proj1 (pf_emits_keys _ _ _ _ _ _ Hnew)) as Hk2.
  rewrite Forall_forall in Hk2. destruct (Hk2 rec Hinn) as [_ Hr].
  exists new. rewrite Hn, Hr. auto.
Qed.

Lemma bf_out_In_inv it n_max out rec :
  bf_out it n_max out -> In rec out ->
  exists new,
    bf_emits it (bf_n rec) (bf_r rec)
             (binom (Z.to_nat (bf_n rec)) (Z.to_nat (bf_r rec))) new
    /\ In rec new.
Proof.
  intros Hout Hin.
  destruct (chunks_In_inv _ _ _ _ Hout Hin) as (n & row & _ & Hrow & Hinr).
  pose proof (proj1 (bf_row_keys it n row Hrow)) as Hk.
  rewrite Forall_forall in Hk. pose proof (Hk rec Hinr) as Hn.
  destruct (chunks_In_inv _ _ _ _ Hrow Hinr) as (r & new & _ & Hnew & Hinn).
  pose proof (proj1 (bf_emits_keys _ _ _ _ _ Hnew)) as Hk2.
  rewrite Forall_forall in Hk2. destruct (Hk2 rec Hinn) as [_ Hr].
  exists new. rewrite Hn, Hr. auto.
Qed.

(** The tag the classifiers give, read off the mathematical patterns. *)
Lemma pf_class_of_total fuel n r c T :
  wf_table T -> n <= fact fuel -> exists cls, pf_class_of n r c cls.
Proof.
  intros HT Hn.
  destruct (is_pf_trivial_wf fuel n r c T HT Hn) as (bt & _ & _ & _ & Hbt).
  destruct (is_pf_F3_wf fuel n r c T HT Hn) as (bf & _ & _ & _ & Hbf).
  exists (pf_tag bt bf). destruct bt.
  - left. split; [now apply Hbt|reflexivity].
  - assert (Hnt : ~ pf_trivial_prop n r) by (intros H; apply Hbt in H; discriminate).
    destruct bf.
    + right; left. repeat split; auto. now apply Hbf.
    + right; right. repeat split; auto. intros H; apply Hbf in H; discriminate.
Qed.

Lemma bf_class_of_total fuel n r (c : Z) T :
  wf_table T -> n <= fact fuel -> exists cls, bf_class_of n r cls.
Proof.
  intros HT Hn.
  destruct (is_bf_trivial_wf fuel n r c T HT Hn) as (bt & _ & _ & _ & Hbt).
  exists (bf_tag bt). destruct bt.
  - left. split; [now apply Hbt|reflexivity].
  - right. split; [|reflexivity]. intros H; apply Hbt in H; discriminate.
Qed.

(** Every PF match in range is classified, and recorded unless its class is
    switched off. *)
Lemma pf_match_classified fuel n_max it f3 T out (n r c0 : nat) :
  wf_table T -> n_max <= Z.of_nat fuel -> pf_out it f3 n_max out ->
  (r <= n)%nat -> Z.of_nat n <= n_max ->
  fact c0 * fact (n - r) = fact n ->
  exists (c : nat) cls,
    fact c = fact c0
    /\ In cls ["trivial"; "PF_F3"; "exceptional"]%string
    /\ pf_tagged fuel (mkPF (Z.of_nat n) (Z.of_nat r) (Z.of_nat c) cls)
    /\ (if pf_keep it f3 cls
        then In (mkPF (Z.of_nat n) (Z.of_nat r) (Z.of_nat c) cls) out
        else forall rec, In rec out ->
               pf_n rec = Z.of_nat n -> pf_r rec = Z.of_nat r -> False).
Proof.
  intros HT Hfuel Hout Hr Hn Hsol.
  assert (Hv : falling (Z.of_nat n) r = fact c0).
  { pose proof (falling_fact n r Hr) as Hf. pose proof (fact_pos (n - r)). nia. }
  assert (Hnf : Z.of_nat n <= fact fuel) by (apply le_fuel_fact; lia).
  destruct (pf_class_of_total fuel (Z.of_nat n) (Z.of_nat r) (Z.of_nat c0) T HT Hnf)
    as (cls & Hcls).
  destruct (pf_keep it f3 cls) eqn:Hk.
  - destruct (pf_out_at it f3 n_max out n r
                (fun rec => exists c' : nat,
                     rec = mkPF (Z.of_nat n) (Z.of_nat r) (Z.of_nat c') cls
                     /\ fact c' = fact c0
                     /\ pf_class_of (Z.of_nat n) (Z.of_nat r) (Z.of_nat c') cls)
                Hr Hn) as (rec & Hin & c' & -> & Hc' & Hcls'); [|exact Hout|].
    + intros new [[Hno _]|(c' & cls' & Hc' & Hcls' & ->)].
      * exfalso. apply Hno. exists c0. now rewrite Hv.
      * assert (cls' = cls)
          by (eapply (pf_class_of_agree _ _ c' c0); eauto; congruence).
        subst cls'. rewrite Hk. eexists. split; [now left|].
        exists c'. repeat split; auto. congruence.
    + exists c', cls. split; [exact Hc'|].
      destruct (pf_class_of_tagged fuel _ _ _ _ Hnf Hcls') as [Hin' Htag].
      split; [exact Hin'|]. split; [exact Htag|]. now rewrite Hk.
  - exists c0, cls. split; [reflexivity|].
    destruct (pf_class_of_tagged fuel _ _ _ _ Hnf Hcls) as [Hin' Htag].
    split; [exact Hin'|]. split; [exact Htag|]. rewrite Hk.
    intros rec Hin Hn' Hr'.
    destruct (pf_out_In_inv _ _ _ _ _ Hout Hin) as (new & Hnew & Hinn).
    rewrite Hn', Hr', Nat2Z.id, Hv in Hnew.
    destruct Hnew as [[_ ->]|(c' & cls' & Hc' & Hcls' & ->)]; [contradiction|].
    assert (cls' = cls) by (eapply (pf_class_of_agree _ _ c' c0); eauto).
    subst cls'. rewrite Hk in Hinn. contradiction.
Qed.

Lemma bf_match_classified fuel n_max it T out (n r c0 : nat) :
  wf_table T -> n_max <= Z.of_nat fuel -> bf_out it n_max out ->
  (r <= n)%nat -> Z.of_nat n <= n_max ->
  fact c0 * fact r * fact (n - r) = fact n ->
  exists (c : nat) cls,
    fact c = fact c0
    /\ In cls ["trivial"; "exceptional"]%string
    /\ bf_tagged fuel (mkBF (Z.of_nat n) (Z.of_nat r) (Z.of_nat c) cls)
    /\ (if bf_keep it cls
        then In (mkBF (Z.of_nat n) (Z.of_nat r) (Z.of_nat c) cls) out
        else forall rec, In rec out ->
               bf_n rec = Z.of_nat n -> bf_r rec = Z.of_nat r -> False).
Proof.
  intros HT Hfuel Hout Hr Hn Hsol.
  assert (Hv : binom n r = fact c0).
  { pose proof (binom_fact n r Hr) as Hf.
    pose proof (fact_pos (n - r)). pose proof (fact_pos r).
    apply Z.mul_reg_r with (fact r * fact (n - r)); [nia|].
    rewrite !Z.mul_assoc. congruence. }
  assert (Hnf : Z.of_nat n <= fact fuel) by (apply le_fuel_fact; lia).
  destruct (bf_class_of_total fuel (Z.of_nat n) (Z.of_nat r) (Z.of_nat c0) T HT Hnf)
    as (cls & Hcls).
  destruct (bf_keep it cls) eqn:Hk.
  - destruct (bf_out_at it n_max out n r
                (fun rec => exists c' : nat,
                     rec = mkBF (Z.of_nat n) (Z.of_nat r) (Z.of_nat c') cls
                     /\ fact c' = fact c0)
                Hr Hn) as (rec & Hin & c' & -> & Hc'); [|exact Hout|].
    + intros new [[Hno _]|(c' & cls' & Hc' & Hcls' & ->)].
      * exfalso. apply Hno. exists c0. now rewrite Hv.
      * rewrite (bf_class_of_agree _ _ _ _ Hcls' Hcls), Hk.
        eexists. split; [now left|]. exists c'. split; [reflexivity|congruence].
    + exists c', cls. split; [exact Hc'|].
      destruct (bf_class_of_tagged fuel _ _ (Z.of_nat c') _ Hnf Hcls) as [Hin' Htag].
      split; [exact Hin'|]. split; [exact Htag|]. now rewrite Hk.
  - exists c0, cls. split; [reflexivity|].
    destruct (bf_class_of_tagged fuel _ _ (Z.of_nat c0) _ Hnf Hcls) as [Hin' Htag].
    split; [exact Hin'|]. split; [exact Htag|]. rewrite Hk.
    intros rec Hin Hn' Hr'.
    destruct (bf_out_In_inv _ _ _ _ Hout Hin) as (new & Hnew & Hinn).
    rewrite Hn', Hr', !Nat2Z.id, Hv in Hnew.
    destruct Hnew as [[_ ->]|(c' & cls' & Hc' & Hcls' & ->)]; [contradiction|].
    rewrite (bf_class_of_agree _ _ _ _ Hcls' Hcls), Hk in Hinn. contradiction.
Qed.

(** C4: classification of a factorial match is total and single-valued.
    Every record [search_pf] returns is a match in range (0 <= r <= n <=
    n_max with c! (n-r)! = n!), carries one of the three tags trivial, PF_F3,
    exceptional, and its tag is the one the priority order (is_pf_trivial,
    then is_pf_F3, then exceptional) assigns to its triple; no pair (n, r) is
    recorded twice, so no match receives two tags.  Conversely every match
    (n, r) in range receives a tag by that priority order and is recorded
    with it, unless the flags switch its class off, in which case no record
    for (n, r) is returned at all.  Likewise for [search_bf] with the two
    tags trivial, exceptional and the test is_bf_trivial. *)
Theorem search_classification (fuel : nat) (n_max : Z) (it f3 : bool) (T : table) :
  wf_table T -> n_max <= Z.of_nat fuel ->
  (exists out T',
      search_pf fuel n_max it f3 T = Some (out, T')
      /\ Forall (fun rec =>
                   In (pf_cls rec) ["trivial"; "PF_F3"; "exceptional"]%string
                   /\ pf_tagged fuel rec
                   /\ 0 <= pf_r rec <= pf_n rec /\ pf_n rec <= n_max
                   /\ 0 <= pf_c rec
                   /\ fact (Z.to_nat (pf_c rec))
                      * fact (Z.to_nat (pf_n rec) - Z.to_nat (pf_r rec))
                      = fact (Z.to_nat (pf_n rec))) out
      /\ (forall a b, In a out -> In b out ->
            pf_n a = pf_n b -> pf_r a = pf_r b -> a = b)
      /\ (forall n r c0 : nat,
            (r <= n)%nat -> Z.of_nat n <= n_max ->
            fact c0 * fact (n - r) = fact n ->
            exists (c : nat) cls,
              fact c = fact c0
              /\ In cls ["trivial"; "PF_F3"; "exceptional"]%string
              /\ pf_tagged fuel (mkPF (Z.of_nat n) (Z.of_nat r) (Z.of_nat c) cls)
              /\ (if pf_keep it f3 cls
                  then In (mkPF (Z.of_nat n) (Z.of_nat r) (Z.of_nat c) cls) out
                  else forall rec, In rec out ->
                         pf_n rec = Z.of_nat n -> pf_r rec = Z.of_nat r -> False)))
  /\ (exists out T',
        search_bf fuel n_max it T = Some (out, T')
        /\ Forall (fun rec =>
                     In (bf_cls rec) ["trivial"; "exceptional"]%string
                     /\ bf_tagged fuel rec
                     /\ 0 <= bf_r rec <= bf_n rec /\ bf_n rec <= n_max
                     /\ 0 <= bf_c rec
                     /\ fact (Z.to_nat (bf_c rec)) * fact (Z.to_nat (bf_r rec))
                        * fact (Z.to_nat (bf_n rec) - Z.to_nat (bf_r rec))
                        = fact (Z.to_nat (bf_n rec))) out
        /\ (forall a b, In a out -> In b out ->
              bf_n a = bf_n b -> bf_r a = bf_r b -> a = b)
        /\ (forall n r c0 : nat,
              (r <= n)%nat -> Z.of_nat n <= n_max ->
              fact c0 * fact r * fact (n - r) = fact n ->
              exists (c : nat) cls,
                fact c = fact c0
                /\ In cls ["trivial"; "exceptional"]%string
                /\ bf_tagged fuel (mkBF (Z.of_nat n) (Z.of_nat r) (Z.of_nat c) cls)
                /\ (if bf_keep it cls
                    then In (mkBF (Z.of_nat n) (Z.of_nat r) (Z.of_nat c) cls) out
                    else forall rec, In rec out ->
                           bf_n rec = Z.of_nat n -> bf_r rec = Z.of_nat r -> False))).
Proof.
  intros HT Hn. split.
  - destruct (search_pf_wf fuel n_max it f3 T Hn HT) as (out & T' & E & _ & Hout).
    exists out, T'. split; [exact E|]. split; [|split].
    + eapply pf_out_Forall; [|exact Hout].
      intros n r c cls Hr Hnm Hc Hcls _. cbn [pf_n pf_r pf_c pf_cls].
      destruct (pf_class_of_tagged fuel n r (Z.of_nat c) cls) as [Hin Htag];
        [apply le_fuel_fact; lia|exact Hcls|].
      split; [exact Hin|]. split; [exact Htag|].
      repeat split; try lia.
      rewrite Nat2Z.id, Hc.
      replace n with (Z.of_nat (Z.to_nat n)) at 1 by lia.
      apply falling_fact. lia.
    + intros a b Ha Hb Hna Hra.
      destruct (StronglySorted_In pf_lex out a b (pf_out_sorted _ _ _ _ Hout) Ha Hb)
        as [H|[H|H]]; [exact H| |]; unfold pf_lex in H; lia.
    + intros n r c0 Hr Hnm Hsol.
      exact (pf_match_classified fuel n_max it f3 T out n r c0 HT Hn Hout Hr Hnm Hsol).
  - destruct (search_bf_wf fuel n_max it T Hn HT) as (out & T' & E & _ & Hout).
    exists out, T'. split; [exact E|]. split; [|split].
    + eapply bf_out_Forall; [|exact Hout].
      intros n r c cls Hr Hnm Hc Hcls _. cbn [bf_n bf_r bf_c bf_cls].
      destruct (bf_class_of_tagged fuel n r (Z.of_nat c) cls) as [Hin Htag];
        [apply le_fuel_fact; lia|exact Hcls|].
      split; [exact Hin|]. split; [exact Htag|].
      repeat split; try lia.
      rewrite Nat2Z.id, Hc. apply binom_fact. lia.
    + intros a b Ha Hb Hna Hra.
      destruct (StronglySorted_In bf_lex out a b (bf_out_sorted _ _ _ Hout) Ha Hb)
        as [H|[H|H]]; [exact H| |]; unfold bf_lex in H; lia.
    + intros n r c0 Hr Hnm Hsol.
      exact (bf_match_classified fuel n_max it T out n r c0 HT Hn Hout Hr Hnm Hsol).
Qed.

Lemma search_classification_witness :
  (exists out T',
      search_pf 10 10 true true facts0 = Some (out, T')
      /\ Forall (fun rec =>
                   In (pf_cls rec) ["trivial"; "PF_F3"; "exceptional"]%string
                   /\ pf_tagged 10 rec
                   /\ 0 <= pf_r rec <= pf_n rec /\ pf_n rec <= 10
                   /\ 0 <= pf_c rec
                   /\ fact (Z.to_nat (pf_c rec))
                      * fact (Z.to_nat (pf_n rec) - Z.to_nat (pf_r rec))
                      = fact (Z.to_nat (pf_n rec))) out
      /\ (forall a b, In a out -> In b out ->
            pf_n a = pf_n b -> pf_r a = pf_r b -> a = b)
      /\ (forall n r c0 : nat,
            (r <= n)%nat -> Z.of_nat n <= 10 ->
            fact c0 * fact (n - r) = fact n ->
            exists (c : nat) cls,
              fact c = fact c0
              /\ In cls ["trivial"; "PF_F3"; "exceptional"]%string
              /\ pf_tagged 10 (mkPF (Z.of_nat n) (Z.of_nat r) (Z.of_nat c) cls)
              /\ (if pf_keep true true cls
                  then In (mkPF (Z.of_nat n) (Z.of_nat r) (Z.of_nat c) cls) out
                  else forall rec, In rec out ->
                         pf_n rec = Z.of_nat n -> pf_r rec = Z.of_nat r -> False)))
  /\ (exists out T',
        search_bf 10 10 true facts0 = Some (out, T')
        /\ Forall (fun rec =>
                     In (bf_cls rec) ["trivial"; "exceptional"]%string
                     /\ bf_tagged 10 rec
                     /\ 0 <= bf_r rec <= bf_n rec /\ bf_n rec <= 10
                     /\ 0 <= bf_c rec
                     /\ fact (Z.to_nat (bf_c rec)) * fact (Z.to_nat (bf_r rec))
                        * fact (Z.to_nat (bf_n rec) - Z.to_nat (bf_r rec))
                        = fact (Z.to_nat (bf_n rec))) out
        /\ (forall a b, In a out -> In b out ->
              bf_n a = bf_n b -> bf_r a = bf_r b -> a = b)
        /\ (forall n r c0 : nat,
              (r <= n)%nat -> Z.of_nat n <= 10 ->
              fact c0 * fact r * fact (n - r) = fact n ->
              exists (c : nat) cls,
                fact c = fact c0
                /\ In cls ["trivial"; "exceptional"]%string
                /\ bf_tagged 10 (mkBF (Z.of_nat n) (Z.of_nat r) (Z.of_nat c) cls)
                /\ (if bf_keep true cls
                    then In (mkBF (Z.of_nat n) (Z.of_nat r) (Z.of_nat c) cls) out
                    else forall rec, In rec out ->
                           bf_n rec = Z.of_nat n -> bf_r rec = Z.of_nat r -> False))).
Proof.
  apply (search_classification 10 10 true true facts0).
  - exists 2%nat. split; [lia|reflexivity].
  - vm_compute. discriminate.
Defined.
